(** * Cosmos client core: key extraction, diagnostic nodes, GROUP BY stage

    A shallow embedding of three pieces of the JavaScript client:

    - [extractPartitionKey.js]  (module [PartitionKey]),
    - [DiagnosticNodeInternal.js] (module [Diagnostics]),
    - [GroupByEndpointComponent.js] (module [GroupBy]),

    over a small model of JavaScript values (module [JS]).  Functions
    imported from modules whose source is not part of this development
    are collected, per file, in a type class of imports and taken as
    total functions; the theorems hold for every implementation of them.
    Definitions come first, the theorems follow in the second half. *)

From Stdlib Require Import ZArith Lia Ascii.
From stdpp Require Import base list strings pretty.

Open Scope Z_scope.

(** ** JavaScript values *)

Module JS.

(** The fragment of the value universe the three files touch.  Numbers
    are the integers among the doubles: the code inspects their [typeof]
    and their truthiness, and adds an array length to a count.  A string
    is held as the bytes of its UTF-8 text.  Objects and [Map]s are
    association lists in insertion order (the order [Object.keys] and
    [Map.prototype.entries] follow). *)
#[warnings="-register-all"]
Inductive jsval : Type :=
| JUndefined
| JNull
| JBool (b : bool)
| JNum (n : Z)
| JStr (s : string)
| JArr (elems : list jsval)
| JObj (fields : list (string * jsval))
| JMap (entries : list (jsval * jsval)).

(** [typeof v] *)
Definition typeof (v : jsval) : string :=
  match v with
  | JUndefined => "undefined"
  | JNull => "object"
  | JBool _ => "boolean"
  | JNum _ => "number"
  | JStr _ => "string"
  | JArr _ | JObj _ | JMap _ => "object"
  end.

(** Truthiness, as tested by [if (v)] and [v ? a : b]. *)
Definition truthy (v : jsval) : bool :=
  match v with
  | JUndefined | JNull => false
  | JBool b => b
  | JNum n => negb (n =? 0)
  | JStr s => negb (String.eqb s "")
  | JArr _ | JObj _ | JMap _ => true
  end.

Definition is_undefined (v : jsval) : bool :=
  match v with JUndefined => true | _ => false end.

(** [null] and [undefined], the two values that have no members: reading
    a member of one of them throws a [TypeError]. *)
Definition nullish (v : jsval) : bool :=
  match v with JUndefined | JNull => true | _ => false end.

Definition is_primitive (v : jsval) : bool :=
  match v with
  | JArr _ | JObj _ | JMap _ => false
  | _ => true
  end.

(** A value whose [typeof] is string, number or boolean. *)
Definition scalar (v : jsval) : Prop :=
  match v with JBool _ | JNum _ | JStr _ => True | _ => False end.

(** [a === b].  Primitives compare by value.  Two objects are equal only
    when they are the same object; values here are trees without
    identity, and the objects the code compares are a part of a caller's
    document and a module constant, so the comparison of two objects is
    [false]. *)
Definition strict_equals (a b : jsval) : bool :=
  match a, b with
  | JUndefined, JUndefined => true
  | JNull, JNull => true
  | JBool x, JBool y => Bool.eqb x y
  | JNum x, JNum y => x =? y
  | JStr x, JStr y => String.eqb x y
  | _, _ => false
  end.

(** *** Plain objects and Maps as insertion-ordered association lists *)

Section Assoc.
Context {K V : Type} (eqb : K -> K -> bool).

(** [o[k]] / [m.get(k)]: [None] stands for [undefined]. *)
Fixpoint assoc_get (l : list (K * V)) (k : K) : option V :=
  match l with
  | [] => None
  | (k', v) :: rest => if eqb k' k then Some v else assoc_get rest k
  end.

(** [o[k] = v] / [m.set(k, v)]: an existing key keeps its position. *)
Fixpoint assoc_set (l : list (K * V)) (k : K) (v : V) : list (K * V) :=
  match l with
  | [] => [(k, v)]
  | (k', v') :: rest =>
      if eqb k' k then (k', v) :: rest else (k', v') :: assoc_set rest k v
  end.

(** [Object.assign(target, source)] on own enumerable properties. *)
Definition assoc_assign (target source : list (K * V)) : list (K * V) :=
  fold_left (fun acc kv => assoc_set acc (fst kv) (snd kv)) source target.
End Assoc.

Definition obj_get : list (string * jsval) -> string -> option jsval :=
  assoc_get String.eqb.
Definition obj_set : list (string * jsval) -> string -> jsval -> list (string * jsval) :=
  assoc_set String.eqb.
Definition obj_assign : list (string * jsval) -> list (string * jsval) -> list (string * jsval) :=
  assoc_assign String.eqb.

(** [Object.keys(o)] *)
Definition Object_keys {V : Type} (o : list (string * V)) : list string :=
  map fst o.

(** The position named by an array index key: the [i < n] whose decimal
    spelling is [part]. *)
Definition array_index (part : string) (n : nat) : option nat :=
  List.find (fun i => String.eqb (pretty i) part) (seq 0 n).

(** A string is held as the bytes of its UTF-8 text.  [s.length] counts
    UTF-16 code units: one for a character of one, two or three bytes,
    two for a character of four bytes.  A byte below 128 or from 192 on
    starts a character, the bytes in between continue one. *)
Definition utf16_units (c : ascii) : nat :=
  let b := nat_of_ascii c in
  if (b <? 128)%nat then 1%nat
  else if (b <? 192)%nat then 0%nat
  else if (b <? 240)%nat then 1%nat
  else 2%nat.

Fixpoint utf16_length (s : string) : nat :=
  match s with
  | EmptyString => 0%nat
  | String c rest => (utf16_units c + utf16_length rest)%nat
  end.

(** [part in obj] for an object value.  Own properties only: members
    inherited from the prototypes are not part of the model. *)
Definition has_property (part : string) (obj : jsval) : bool :=
  match obj with
  | JObj fields => bool_decide (is_Some (obj_get fields part))
  | JArr elems =>
      String.eqb part "length"
      || bool_decide (is_Some (array_index part (length elems)))
  | _ => false
  end.

(** [obj[part]]; of a string the code reads only [length]. *)
Definition get_property (obj : jsval) (part : string) : jsval :=
  match obj with
  | JObj fields => default JUndefined (obj_get fields part)
  | JArr elems =>
      if String.eqb part "length" then JNum (Z.of_nat (length elems))
      else match array_index part (length elems) with
           | Some i => nth i elems JUndefined
           | None => JUndefined
           end
  | JStr s => if String.eqb part "length" then JNum (Z.of_nat (utf16_length s))
              else JUndefined
  | _ => JUndefined
  end.

(** *** [JSON.stringify] *)

Definition dquote : string := String (ascii_of_nat 34) EmptyString.
Definition backslash : string := String (ascii_of_nat 92) EmptyString.

Definition hex_digit (n : nat) : string :=
  String (nth n (String.list_ascii_of_string "0123456789abcdef") "0"%char) EmptyString.

Definition escape_char (c : ascii) : string :=
  let n := nat_of_ascii c in
  if Nat.eqb n 34 then backslash +:+ dquote
  else if Nat.eqb n 92 then backslash +:+ backslash
  else if Nat.eqb n 8 then backslash +:+ "b"
  else if Nat.eqb n 9 then backslash +:+ "t"
  else if Nat.eqb n 10 then backslash +:+ "n"
  else if Nat.eqb n 12 then backslash +:+ "f"
  else if Nat.eqb n 13 then backslash +:+ "r"
  else if Nat.ltb n 32 then
    backslash +:+ "u00" +:+ hex_digit (Nat.div n 16) +:+ hex_digit (Nat.modulo n 16)
  else String c EmptyString.

Fixpoint escape (s : string) : string :=
  match s with
  | EmptyString => EmptyString
  | String c rest => escape_char c +:+ escape rest
  end.

Definition quote (s : string) : string := dquote +:+ escape s +:+ dquote.

(** [JSON.stringify(v)]; [None] is the result [undefined].  In an array
    an [undefined] element prints as [null]; in an object a member whose
    value is [undefined] is left out; a [Map] has no own enumerable
    members. *)
Fixpoint JSON_stringify (v : jsval) : option string :=
  match v with
  | JUndefined => None
  | JNull => Some "null"%string
  | JBool true => Some "true"%string
  | JBool false => Some "false"%string
  | JNum n => Some (pretty n)
  | JStr s => Some (quote s)
  | JArr elems =>
      Some ("[" +:+
            String.concat ","
              (map (fun x => default "null"%string (JSON_stringify x)) elems)
            +:+ "]")
  | JObj fields =>
      Some ("{" +:+
            String.concat ","
              ((fix members (l : list (string * jsval)) : list string :=
                  match l with
                  | [] => []
                  | (k, x) :: rest =>
                      match JSON_stringify x with
                      | Some s => (quote k +:+ ":" +:+ s) :: members rest
                      | None => members rest
                      end
                  end) fields)
            +:+ "}")
  | JMap _ => Some "{}"%string
  end.

End JS.

(** ** extractPartitionKey.js *)

Module PartitionKey.
Import JS.

(** What the file imports: [parsePath] from [./common], the two literals
    from [./documents] and [DEFAULT_PARTITION_KEY_PATH] from
    [./common/partitionKeys]. *)
Class Imports := {
  parsePath : string -> list string;
  NullPartitionKeyLiteral : jsval;
  NonePartitionKeyLiteral : jsval;
  DEFAULT_PARTITION_KEY_PATH : string;
}.

(** [PartitionKeyDefinition]: either member may be absent. *)
Record PartitionKeyDefinition := {
  paths : option (list string);
  systemKey : option bool;
}.

Section WithImports.
Context `{Imports}.

(** The [for (const part of pathParts)] loop of [extractPartitionKey]:
    descend while [obj] is a non-null object that has [part]; otherwise
    [obj = undefined; break]. *)
Fixpoint descend (pathParts : list string) (obj : jsval) : jsval :=
  match pathParts with
  | [] => obj
  | part :: rest =>
      if String.eqb (typeof obj) "object"
         && negb (strict_equals obj JNull)
         && has_property part obj
      then descend rest (get_property obj part)
      else JUndefined
  end.

(** [extractPartitionKey(path, obj)]; the result [JUndefined] is the
    function's final [return undefined]. *)
Definition extractPartitionKey (path : string) (obj : jsval) : jsval :=
  let obj := descend (parsePath path) obj in
  if String.eqb (typeof obj) "string"
     || String.eqb (typeof obj) "number"
     || String.eqb (typeof obj) "boolean"
  then obj
  else if strict_equals obj NullPartitionKeyLiteral
  then NullPartitionKeyLiteral
  else if strict_equals obj JUndefined
          || bool_decide (JSON_stringify obj
                          = JSON_stringify NonePartitionKeyLiteral)
  then NonePartitionKeyLiteral
  else JUndefined.

(** [paths.forEach((path) => { ... })] over the accumulator
    [partitionKeys].  The [return undefined] in the callback ends that
    one call of the callback; the iteration goes on with the next
    path. *)
Fixpoint forEach_path (document : jsval) (ps : list string)
         (partitionKeys : list jsval) : list jsval :=
  match ps with
  | [] => partitionKeys
  | path :: rest =>
      let obj := extractPartitionKey path document in
      if strict_equals obj JUndefined
      then forEach_path document rest partitionKeys
      else forEach_path document rest (partitionKeys ++ [obj])
  end.

(** [extractPartitionKeys(document, partitionKeyDefinition)]; [None] is
    the result [undefined].  The two logger calls have no effect on the
    result and are left out. *)
Definition extractPartitionKeys (document : jsval)
           (partitionKeyDefinition : option PartitionKeyDefinition)
  : option (list jsval) :=
  match partitionKeyDefinition with
  | Some def =>
      match paths def with
      | Some ps =>
          if (0 <? length ps)%nat then
            if bool_decide (systemKey def = Some true) then Some []
            else if (length ps =? 1)%nat
                    && bool_decide (ps !! 0%nat = Some DEFAULT_PARTITION_KEY_PATH)
            then Some [extractPartitionKey DEFAULT_PARTITION_KEY_PATH document]
            else Some (forEach_path document ps [])
          else None
      | None => None
      end
  | None => None
  end.

(** [undefinedPartitionKey(partitionKeyDefinition)]; [None] stands for
    the [TypeError] of [paths.map] on a definition without [paths]. *)
Definition undefinedPartitionKey (partitionKeyDefinition : PartitionKeyDefinition)
  : option (list jsval) :=
  if bool_decide (systemKey partitionKeyDefinition = Some true) then Some []
  else map (fun _ => NonePartitionKeyLiteral) <$> paths partitionKeyDefinition.

End WithImports.

(** A definition is well formed when it is present and has a non-empty
    list of paths: the guard at the head of [extractPartitionKeys]. *)
Definition well_formed (d : option PartitionKeyDefinition) : Prop :=
  exists def ps, d = Some def /\ paths def = Some ps /\ ps <> [].

(** One environment to run the extractor in: paths split at each slash,
    [null] and the empty object as the two literals. *)
Fixpoint split_path (acc : string) (s : string) : list string :=
  match s with
  | EmptyString => [acc]
  | String c rest =>
      if Ascii.eqb c "/"%char then acc :: split_path "" rest
      else split_path (acc +:+ String c EmptyString) rest
  end.

Definition slash_path (s : string) : list string :=
  match s with
  | String c rest => if Ascii.eqb c "/"%char then split_path "" rest else []
  | EmptyString => []
  end.

Definition sample_imports : Imports := {|
  parsePath := slash_path;
  NullPartitionKeyLiteral := JNull;
  NonePartitionKeyLiteral := JObj [];
  DEFAULT_PARTITION_KEY_PATH := "/_partitionKey";
|}.

End PartitionKey.

(** ** DiagnosticNodeInternal.js *)

Module Diagnostics.
Import JS.

(** [CosmosDbDiagnosticLevel]: the three members the file names. *)
Inductive CosmosDbDiagnosticLevel := info | debug | debugUnsafe.

#[global] Instance CosmosDbDiagnosticLevel_eq_dec : EqDecision CosmosDbDiagnosticLevel.
Proof. solve_decision. Defined.

(** [DiagnosticNodeType] *)
Inductive DiagnosticNodeType :=
| CLIENT_REQUEST_NODE
| METADATA_REQUEST_NODE
| HTTP_REQUEST
| BATCH_REQUEST
| PARALLEL_QUERY_NODE
| DEFAULT_QUERY_NODE
| QUERY_REPAIR_NODE
| BACKGROUND_REFRESH_THREAD
| REQUEST_ATTEMPTS.

(** The object literal handed to [recordFailedAttempt]. *)
Record GatewayStatistics := {
  activityId : jsval;
  gw_startTimeUTCInMs : Z;
  gw_durationInMs : Z;
  statusCode : jsval;
  subStatusCode : jsval;
  requestPayloadLengthInBytes : jsval;
  responsePayloadLengthInBytes : jsval;
  gw_operationType : jsval;
  gw_resourceType : jsval;
}.

(** The members of a request context the file reads. *)
Record RequestContext := {
  headers : jsval;
  body : jsval;
  operationType : jsval;
  resourceType : jsval;
  endpoint : jsval;
  path : jsval;
}.

(** What the file imports: the context class of
    [./CosmosDiagnosticsContext] with the two methods used below,
    [allowTracing] of [./diagnosticLevelComparator], the header name
    [Constants.HttpHeaders.ActivityId] and [prepareURL] of [../common]. *)
Class Imports := {
  CosmosDiagnosticContext : Type;
  new_CosmosDiagnosticContext : CosmosDiagnosticContext;
  recordFailedAttempt :
    CosmosDiagnosticContext -> GatewayStatistics -> Z -> CosmosDiagnosticContext;
  mergeDiagnostics :
    CosmosDiagnosticContext -> CosmosDiagnosticContext -> jsval -> CosmosDiagnosticContext;
  allowTracing : CosmosDbDiagnosticLevel -> CosmosDbDiagnosticLevel -> bool;
  HttpHeaders_ActivityId : string;
  prepareURL : jsval -> jsval -> jsval;
}.

(** Nodes and contexts are objects shared by reference: a node is held by
    its parent's [children] and points back through [parent], and one
    context is held by every node of a tree.  References are positions in
    two stores. *)
Abbreviation node_ref := nat.
Abbreviation ctx_ref := nat.

Record DiagnosticNodeInternal := {
  id : string;
  nodeType : DiagnosticNodeType;
  startTimeUTCInMs : Z;
  data : list (string * jsval);
  children : list node_ref;
  durationInMs : Z;
  parent : option node_ref;
  diagnosticCtx : ctx_ref;
  diagnosticLevel : CosmosDbDiagnosticLevel;
}.

Definition with_data (n : DiagnosticNodeInternal) (d : list (string * jsval)) :=
  {| id := id n; nodeType := nodeType n; startTimeUTCInMs := startTimeUTCInMs n;
     data := d; children := children n; durationInMs := durationInMs n;
     parent := parent n; diagnosticCtx := diagnosticCtx n;
     diagnosticLevel := diagnosticLevel n |}.

Definition with_children (n : DiagnosticNodeInternal) (c : list node_ref) :=
  {| id := id n; nodeType := nodeType n; startTimeUTCInMs := startTimeUTCInMs n;
     data := data n; children := c; durationInMs := durationInMs n;
     parent := parent n; diagnosticCtx := diagnosticCtx n;
     diagnosticLevel := diagnosticLevel n |}.

Definition with_parent (n : DiagnosticNodeInternal) (p : option node_ref) :=
  {| id := id n; nodeType := nodeType n; startTimeUTCInMs := startTimeUTCInMs n;
     data := data n; children := children n; durationInMs := durationInMs n;
     parent := p; diagnosticCtx := diagnosticCtx n;
     diagnosticLevel := diagnosticLevel n |}.

Section WithImports.
Context `{Imports}.

Record heap := {
  nodes : list DiagnosticNodeInternal;
  contexts : list CosmosDiagnosticContext;
}.

Definition set_nodes (h : heap) (ns : list DiagnosticNodeInternal) : heap :=
  {| nodes := ns; contexts := contexts h |}.
Definition set_contexts (h : heap) (cs : list CosmosDiagnosticContext) : heap :=
  {| nodes := nodes h; contexts := cs |}.

(** [new DiagnosticNodeInternal(diagnosticLevel, type, parent, data,
    startTimeUTCInMs, ctx)].  [uuid] is the value [v4()] returns;
    [ctx = None] is the default argument, a new context. *)
Definition new_DiagnosticNodeInternal (h : heap)
           (level : CosmosDbDiagnosticLevel) (type : DiagnosticNodeType)
           (parent : option node_ref) (data : list (string * jsval))
           (startTimeUTCInMs : Z) (ctx : option ctx_ref) (uuid : string)
  : heap * node_ref :=
  let '(cs, c) :=
    match ctx with
    | Some c => (contexts h, c)
    | None => (contexts h ++ [new_CosmosDiagnosticContext], length (contexts h))
    end in
  ({| nodes := nodes h ++
               [{| id := uuid; nodeType := type;
                   startTimeUTCInMs := startTimeUTCInMs; data := data;
                   children := []; durationInMs := 0; parent := parent;
                   diagnosticCtx := c; diagnosticLevel := level |}];
      contexts := cs |},
   length (nodes h)).

(** [addLog(msg)].  [None]: [this] is not in the store, or [data.log] is
    a truthy value without [push]. *)
Definition addLog (h : heap) (this : node_ref) (msg : string) : option heap :=
  n ← nodes h !! this;
  let log := match obj_get (data n) "log" with
             | Some v => if truthy v then v else JArr []
             | None => JArr []
             end in
  match log with
  | JArr l =>
      Some (set_nodes h
              (<[this := with_data n (obj_set (data n) "log" (JArr (l ++ [JStr msg])))]>
                 (nodes h)))
  | _ => None
  end.

(** [sanitizeHeaders(headers)] *)
Definition sanitizeHeaders (headers : jsval) : jsval := headers.

(** [addData(data, msg, level = this.diagnosticLevel)] *)
Definition addData (h : heap) (this : node_ref) (d : list (string * jsval))
           (msg : option string) (level : option CosmosDbDiagnosticLevel)
  : option heap :=
  n ← nodes h !! this;
  let level := default (diagnosticLevel n) level in
  if bool_decide (level <> info) then
    let h1 := set_nodes h
                (<[this := with_data n (obj_assign (obj_assign [] (data n)) d)]>
                   (nodes h)) in
    match msg with
    | Some m => if negb (String.eqb m "") then addLog h1 this m else Some h1
    | None => Some h1
    end
  else Some h.

(** [calculateRequestPayloadLength(requestContext)] *)
Definition calculateRequestPayloadLength (requestContext : RequestContext) : jsval :=
  if truthy (body requestContext)
  then get_property (body requestContext) "length"
  else JNum 0.

(** The first object literal bound to [requestData]. *)
Definition requestData_base (requestContext : RequestContext) : list (string * jsval) :=
  [("OperationType"%string, operationType requestContext);
   ("resourceType"%string, resourceType requestContext);
   ("requestPayloadLengthInBytes"%string,
    calculateRequestPayloadLength requestContext)].

(** The members added to [requestData] behind the [debugUnsafe] gate. *)
Definition requestData_unsafe (requestContext : RequestContext) : list (string * jsval) :=
  [("headers"%string, sanitizeHeaders (headers requestContext));
   ("requestBody"%string, body requestContext);
   ("url"%string, prepareURL (endpoint requestContext) (path requestContext))].

(** The object literal [recordFailedNetworkCall] passes to
    [recordFailedAttempt]; [now] is the value
    [getCurrentTimestampInMs()] returns. *)
Definition failedAttempt_statistics (startTimeUTCInMs : Z)
           (requestContext : RequestContext) (statusCode substatusCode : jsval)
           (responseHeaders : list (string * jsval)) (now : Z) : GatewayStatistics :=
  {| activityId :=
       default JUndefined (obj_get responseHeaders HttpHeaders_ActivityId);
     gw_startTimeUTCInMs := startTimeUTCInMs;
     gw_durationInMs := now - startTimeUTCInMs;
     statusCode := statusCode;
     subStatusCode := substatusCode;
     requestPayloadLengthInBytes := calculateRequestPayloadLength requestContext;
     responsePayloadLengthInBytes := JNum 0;
     gw_operationType := operationType requestContext;
     gw_resourceType := resourceType requestContext |}.

(** [recordFailedNetworkCall(startTimeUTCInMs, requestContext,
    retryAttemptNumber, statusCode, substatusCode, responseHeaders)] *)
Definition recordFailedNetworkCall (h : heap) (this : node_ref)
           (startTimeUTCInMs : Z) (requestContext : RequestContext)
           (retryAttemptNumber : Z) (statusCode substatusCode : jsval)
           (responseHeaders : list (string * jsval)) (now : Z)
  : option heap :=
  h1 ← addData h this [("failedAttempty"%string, JBool true)] None None;
  n ← nodes h1 !! this;
  ctx ← contexts h1 !! diagnosticCtx n;
  let h2 :=
    set_contexts h1
      (<[diagnosticCtx n :=
           recordFailedAttempt ctx
             (failedAttempt_statistics startTimeUTCInMs requestContext
                statusCode substatusCode responseHeaders now)
             retryAttemptNumber]>
         (contexts h1)) in
  let requestData := requestData_base requestContext in
  let requestData :=
    if allowTracing debugUnsafe (diagnosticLevel n)
    then obj_assign (obj_assign [] requestData) (requestData_unsafe requestContext)
    else requestData in
  addData h2 this
    [("failedAttempty"%string, JBool true);
     ("requestData"%string, JObj requestData)] None None.

(** [addChildNode(child, level, metadataType)]; returns [child]. *)
Definition addChildNode (h : heap) (this child : node_ref)
           (level : CosmosDbDiagnosticLevel) (metadataType : jsval)
  : option (heap * node_ref) :=
  n ← nodes h !! this;
  c ← nodes h !! child;
  ctx ← contexts h !! diagnosticCtx n;
  childCtx ← contexts h !! diagnosticCtx c;
  let h1 := set_contexts h
              (<[diagnosticCtx n := mergeDiagnostics ctx childCtx metadataType]>
                 (contexts h)) in
  if allowTracing level (diagnosticLevel n) then
    let ns1 := <[child := with_parent c (Some this)]> (nodes h1) in
    n1 ← ns1 !! this;
    Some (set_nodes h1 (<[this := with_children n1 (children n1 ++ [child])]> ns1),
          child)
  else Some (h1, child).

(** [initializeChildNode(type, level, data = {})]; [uuid] and [now] are
    the values of [v4()] and [getCurrentTimestampInMs()]. *)
Definition initializeChildNode (h : heap) (this : node_ref)
           (type : DiagnosticNodeType) (level : CosmosDbDiagnosticLevel)
           (data : option (list (string * jsval))) (uuid : string) (now : Z)
  : option (heap * node_ref) :=
  n ← nodes h !! this;
  if allowTracing level (diagnosticLevel n) then
    let '(h1, child) :=
      new_DiagnosticNodeInternal h (diagnosticLevel n) type (Some this)
        (default [] data) now (Some (diagnosticCtx n)) uuid in
    n1 ← nodes h1 !! this;
    Some (set_nodes h1 (<[this := with_children n1 (children n1 ++ [child])]> (nodes h1)),
          child)
  else Some (h, this).

End WithImports.

(** One environment to run the node operations in.  The context keeps
    three append-only lists; the gate traces a level when the configured
    level is at least as verbose, on [info < debug < debugUnsafe]. *)
Record sample_context := {
  gatewayStatistics : list GatewayStatistics;
  metadataLookups : list (jsval * GatewayStatistics);
  failedAttempts : list (Z * GatewayStatistics);
}.

Definition level_rank (l : CosmosDbDiagnosticLevel) : nat :=
  match l with info => 0 | debug => 1 | debugUnsafe => 2 end.

Definition sample_imports : Imports := {|
  CosmosDiagnosticContext := sample_context;
  new_CosmosDiagnosticContext :=
    {| gatewayStatistics := []; metadataLookups := []; failedAttempts := [] |};
  recordFailedAttempt c g n :=
    {| gatewayStatistics := gatewayStatistics c;
       metadataLookups := metadataLookups c;
       failedAttempts := failedAttempts c ++ [(n, g)] |};
  mergeDiagnostics c child metadataType :=
    {| gatewayStatistics := gatewayStatistics c;
       metadataLookups :=
         metadataLookups c
         ++ map (fun g => (metadataType, g)) (gatewayStatistics child)
         ++ metadataLookups child;
       failedAttempts := failedAttempts c ++ failedAttempts child |};
  allowTracing levelToCheck configured :=
    (level_rank levelToCheck <=? level_rank configured)%nat;
  HttpHeaders_ActivityId := "x-ms-activity-id";
  prepareURL endpoint path :=
    match endpoint, path with
    | JStr e, JStr p => JStr (e +:+ p)
    | _, _ => JUndefined
    end;
|}.

(** A store of two nodes, each with a context of its own: node 0 at level
    [debugUnsafe], node 1 at level [debug]. *)
Definition sample_node (level : CosmosDbDiagnosticLevel) (ctx : ctx_ref)
  : DiagnosticNodeInternal :=
  {| id := "node"; nodeType := CLIENT_REQUEST_NODE; startTimeUTCInMs := 0;
     data := []; children := []; durationInMs := 0; parent := None;
     diagnosticCtx := ctx; diagnosticLevel := level |}.

Definition sample_heap : heap (H := sample_imports) :=
  {| nodes := [sample_node debugUnsafe 0; sample_node debug 1];
     contexts := [new_CosmosDiagnosticContext (Imports := sample_imports);
                  new_CosmosDiagnosticContext (Imports := sample_imports)] |}.

Definition sample_request : RequestContext :=
  {| headers := JObj [("authorization"%string, JStr "secret")];
     body := JStr "{}"; operationType := JStr "read";
     resourceType := JStr "docs"; endpoint := JStr "https://host";
     path := JStr "/dbs" |}.

End Diagnostics.

(** ** ExecutionContext.d.ts *)

Module ExecutionContext.
Import JS.

(** A thrown value, with the two members the GROUP BY stage inspects. *)
Record JsError := {
  name : string;
  code : jsval;
  fetchedResults : jsval;
  message : string;
}.

(** [Response<T>]: [result = None] is a falsy [result]. *)
Record Response (Headers T : Type) := {
  result : option T;
  headers : Headers;
}.
Arguments result {Headers T} _.
Arguments headers {Headers T} _.

(** The interface: [hasMoreResults()] and [nextItem(diagnosticNode,
    operationOptions, ruConsumed)].  [Args] stands for the three
    arguments, [S] for the state of the implementing object; a call of
    [nextItem] leaves a new state and either throws or returns. *)
Class ExecutionContext (Args Headers T S : Type) := {
  hasMoreResults : S -> bool;
  nextItem : Args -> S -> S * (JsError + Response Headers T);
}.

End ExecutionContext.

(** ** GroupByEndpointComponent.js *)

Module GroupBy.
Import JS.
Import ExecutionContext(JsError, Response, name, code, fetchedResults, message,
                        result, headers, Build_JsError, Build_Response).

(** What the file imports: [hashObject], [createAggregator] and the two
    methods of the aggregators it returns, [getInitialHeader] and
    [mergeHeaders], [emptyGroup] and [extractAggregateResult], and the
    error code of [RUCapPerOperationExceededError].  Of
    [extractAggregateResult] the import is [aggregateResultOf], the value
    it returns for an argument that has members to read; see
    [extractAggregateResult] below for the call itself. *)
Class Imports := {
  Headers : Type;
  getInitialHeader : Headers;
  mergeHeaders : Headers -> Headers -> Headers;
  hashObject : jsval -> string;
  emptyGroup : string;
  Aggregator : Type;
  createAggregator : jsval -> Aggregator;
  aggregate : Aggregator -> jsval -> Aggregator;
  getResult : Aggregator -> jsval;
  aggregateResultOf : jsval -> jsval;
  RUCapPerOperationExceededErrorCode : string;
}.

(** A row pulled from the inner context: [groupByItems], which may be
    absent, and the object [payload]. *)
Record Row := {
  groupByItems : jsval;
  payload : list (string * jsval);
}.

Record QueryInfo := {
  groupByAliasToAggregateType : list (string * jsval);
}.

(** The row the stage emits for one group. *)
Definition GroupResult := list (string * jsval).

(** [a.push(x)] and [a.pop()] *)
Definition array_push {A : Type} (a : list A) (x : A) : list A := a ++ [x].
Definition array_pop {A : Type} (a : list A) : option A * list A :=
  (last a, removelast a).

(** What [aggregators.get(key).aggregate(...)] throws when the map has no
    aggregator under [key]. *)
Definition TypeError_aggregate : JsError := {|
  name := "TypeError";
  code := JUndefined;
  fetchedResults := JUndefined;
  message := "Cannot read properties of undefined (reading 'aggregate')";
|}.

(** What reading the members of [null] or [undefined] throws. *)
Definition TypeError_extract : JsError := {|
  name := "TypeError";
  code := JUndefined;
  fetchedResults := JUndefined;
  message := "Cannot convert undefined or null to object";
|}.

Section WithImports.
Context `{Imports}.
Context {Args S : Type} `{EC : !ExecutionContext.ExecutionContext Args Headers Row S}.

Definition Grouping := list (string * Aggregator).

(** [extractAggregateResult(payload)].  emptyGroup.js is not among the
    sources.  The function extracts the aggregate from the members of
    its argument, and reading the members of [null] or [undefined]
    throws a [TypeError]: the caller guards its first call against just
    that (lines 43 to 46) and not its second (line 62).  For any other
    argument the call returns what the import gives. *)
Definition extractAggregateResult (payload : jsval) : JsError + jsval :=
  if nullish payload then inl TypeError_extract
  else inr (aggregateResultOf payload).

Record GroupByEndpointComponent := {
  executionContext : S;
  queryInfo : QueryInfo;
  groupings : list (string * Grouping);
  aggregateResultArray : list GroupResult;
  completed : bool;
}.

(** [new GroupByEndpointComponent(executionContext, queryInfo)] *)
Definition new_GroupByEndpointComponent (executionContext : S) (queryInfo : QueryInfo) :=
  {| executionContext := executionContext; queryInfo := queryInfo;
     groupings := []; aggregateResultArray := []; completed := false |}.

(** [new Map().set("item2", null)] *)
Definition null_wrapper : jsval := JMap [(JStr "item2", JNull)].

(** The row belongs to a group seen before:
    [Object.keys(payload).map((key) => { ... })] over the group's
    aggregators.  A throw of [extractAggregateResult], or a key without
    an aggregator, ends the loop; the aggregators fed before it keep
    their new state. *)
Fixpoint feed_existing (aggregators : Grouping) (payload : list (string * jsval))
         (keys : list string) : Grouping * option JsError :=
  match keys with
  | [] => (aggregators, None)
  | key :: rest =>
      let v := default JUndefined (obj_get payload key) in
      let effectiveGroupByValue := if truthy v then v else null_wrapper in
      match extractAggregateResult effectiveGroupByValue with
      | inl err => (aggregators, Some err)
      | inr aggregateResult =>
          match assoc_get String.eqb aggregators key with
          | Some aggregator =>
              feed_existing
                (assoc_set String.eqb aggregators key
                           (aggregate aggregator aggregateResult))
                payload rest
          | None => (aggregators, Some TypeError_aggregate)
          end
      end
  end.

(** The row opens a group: [Object.keys(payload).map((key) => { ... })]
    over the new [grouping], which is in [this.groupings] already.  A
    throw of [extractAggregateResult] ends the loop and leaves the group
    with the keys set so far, the aggregator of the last of them
    created and not fed. *)
Fixpoint seed_new (q : QueryInfo) (grouping : Grouping)
         (payload : list (string * jsval)) (keys : list string)
  : Grouping * option JsError :=
  match keys with
  | [] => (grouping, None)
  | key :: rest =>
      let aggregateType :=
        default JUndefined (obj_get (groupByAliasToAggregateType q) key) in
      let aggregator := createAggregator aggregateType in
      let v := default JUndefined (obj_get payload key) in
      if truthy aggregateType then
        match extractAggregateResult v with
        | inl err => (assoc_set String.eqb grouping key aggregator, Some err)
        | inr aggregateResult =>
            seed_new q
              (assoc_set String.eqb grouping key
                         (aggregate aggregator aggregateResult))
              payload rest
        end
      else
        seed_new q (assoc_set String.eqb grouping key (aggregate aggregator v))
                 payload rest
  end.

(** The value [feed_existing] passes to the aggregator of [key]: the
    value or the wrapper is never [null] or [undefined], so the call
    returns. *)
Definition fed_existing (payload : list (string * jsval)) (key : string) : jsval :=
  let v := default JUndefined (obj_get payload key) in
  aggregateResultOf (if truthy v then v else null_wrapper).




(** [result.groupByItems ? await hashObject(result.groupByItems) : emptyGroup] *)
Definition group_of (row : Row) : string :=
  if truthy (groupByItems row) then hashObject (groupByItems row) else emptyGroup.

(** The body of [if (result) { ... }] for one row. *)
Definition process_row (q : QueryInfo) (groupings : list (string * Grouping))
           (row : Row) : list (string * Grouping) * option JsError :=
  let group := group_of row in
  match assoc_get String.eqb groupings group with
  | Some aggregators =>
      let '(aggregators, err) :=
        feed_existing aggregators (payload row) (Object_keys (payload row)) in
      (assoc_set String.eqb groupings group aggregators, err)
  | None =>
      let '(grouping, err) :=
        seed_new q [] (payload row) (Object_keys (payload row)) in
      (assoc_set String.eqb groupings group grouping, err)
  end.

(** The [while (this.executionContext.hasMoreResults())] loop.  [fuel]
    bounds the number of pulls; [None] means the bound was reached.  The
    last component is the value thrown out of the loop, if any. *)
Fixpoint drain (fuel : nat) (args : Args) (q : QueryInfo) (inner : S)
         (groupings : list (string * Grouping)) (aggregateHeaders : Headers)
  : option (S * list (string * Grouping) * Headers * option JsError) :=
  if ExecutionContext.hasMoreResults inner then
    match fuel with
    | O => None
    | Datatypes.S fuel =>
        match ExecutionContext.nextItem args inner with
        | (inner, inl err) => Some (inner, groupings, aggregateHeaders, Some err)
        | (inner, inr response) =>
            let aggregateHeaders := mergeHeaders aggregateHeaders (headers response) in
            match result response with
            | Some row =>
                match process_row q groupings row with
                | (groupings, Some err) =>
                    Some (inner, groupings, aggregateHeaders, Some err)
                | (groupings, None) =>
                    drain fuel args q inner groupings aggregateHeaders
                end
            | None => drain fuel args q inner groupings aggregateHeaders
            end
        end
    end
  else Some (inner, groupings, aggregateHeaders, None).

(** The [catch (err)] clause: the value that is thrown again. *)
Definition catch_clause (err : JsError) : JsError :=
  if strict_equals (code err) (JStr RUCapPerOperationExceededErrorCode)
  then {| name := name err; code := code err; fetchedResults := JUndefined;
          message := message err |}
  else err.

(** The inner loop of the final [for]: one group's aggregators into one
    flat object. *)
Definition group_result (grouping : Grouping) : GroupResult :=
  fold_left (fun groupResult ka => obj_set groupResult (fst ka) (getResult (snd ka)))
            grouping [].

(** [for (const grouping of this.groupings.values()) { ... push ... }] *)
Definition push_group_results (groupings : list (string * Grouping))
           (aggregateResultArray : list GroupResult) : list GroupResult :=
  fold_left (fun arr g => array_push arr (group_result (snd g)))
            groupings aggregateResultArray.

(** [nextItem(diagnosticNode, operationOptions, ruConsumedManager)].
    [None]: the loop did not end within [fuel] pulls. *)
Definition nextItem (fuel : nat) (args : Args) (this : GroupByEndpointComponent)
  : option (GroupByEndpointComponent * (JsError + Response Headers GroupResult)) :=
  if (0 <? length (aggregateResultArray this))%nat then
    let '(r, rest) := array_pop (aggregateResultArray this) in
    Some ({| executionContext := executionContext this;
             queryInfo := queryInfo this;
             groupings := groupings this;
             aggregateResultArray := rest;
             completed := completed this |},
          inr {| result := r; headers := getInitialHeader |})
  else if completed this then
    Some (this, inr {| result := None; headers := getInitialHeader |})
  else
    match drain fuel args (queryInfo this) (executionContext this)
                (groupings this) getInitialHeader with
    | None => None
    | Some (inner, groupings, _, Some err) =>
        Some ({| executionContext := inner;
                 queryInfo := queryInfo this;
                 groupings := groupings;
                 aggregateResultArray := aggregateResultArray this;
                 completed := completed this |},
              inl (catch_clause err))
    | Some (inner, groupings, aggregateHeaders, None) =>
        let '(r, rest) :=
          array_pop (push_group_results groupings (aggregateResultArray this)) in
        Some ({| executionContext := inner;
                 queryInfo := queryInfo this;
                 groupings := groupings;
                 aggregateResultArray := rest;
                 completed := true |},
              inr {| result := r; headers := aggregateHeaders |})
    end.

(** [hasMoreResults()] *)
Definition hasMoreResults (this : GroupByEndpointComponent) : bool :=
  ExecutionContext.hasMoreResults (executionContext this)
  || (0 <? length (aggregateResultArray this))%nat.

(** *** The inner context as a source of responses *)

(** [delivers args s rs s']: pulled for as long as it reports more
    results, the inner context in state [s] returns the responses [rs],
    in this order, throws nothing, and is left in state [s'], where it
    reports no more results. *)
Inductive delivers (args : Args) : S -> list (Response Headers Row) -> S -> Prop :=
| delivers_nil s :
    ExecutionContext.hasMoreResults s = false -> delivers args s [] s
| delivers_cons s s1 s' r rs :
    ExecutionContext.hasMoreResults s = true ->
    ExecutionContext.nextItem args s = (s1, inr r) ->
    delivers args s1 rs s' ->
    delivers args s (r :: rs) s'.

(** [throws_after args s rs err s']: the inner context returns the
    responses [rs] and throws [err] at the next pull, which leaves it in
    state [s']. *)
Inductive throws_after (args : Args)
  : S -> list (Response Headers Row) -> JsError -> S -> Prop :=
| throws_now s s' err :
    ExecutionContext.hasMoreResults s = true ->
    ExecutionContext.nextItem args s = (s', inl err) ->
    throws_after args s [] err s'
| throws_later s s1 s' r rs err :
    ExecutionContext.hasMoreResults s = true ->
    ExecutionContext.nextItem args s = (s1, inr r) ->
    throws_after args s1 rs err s' ->
    throws_after args s (r :: rs) err s'.

(** The rows among a list of responses. *)
Definition rows_of (rs : list (Response Headers Row)) : list Row :=
  omap result rs.

(** The headers of a list of responses merged, left to right, into [h]. *)
Definition merged_headers (h : Headers) (rs : list (Response Headers Row)) : Headers :=
  fold_left (fun acc r => mergeHeaders acc (headers r)) rs h.

(** All rows in order through [process_row], stopping at the first
    throw. *)
Fixpoint process_rows (q : QueryInfo) (groupings : list (string * Grouping))
         (rows : list Row) : list (string * Grouping) * option JsError :=
  match rows with
  | [] => (groupings, None)
  | row :: rest =>
      match process_row q groupings row with
      | (groupings, Some err) => (groupings, Some err)
      | (groupings, None) => process_rows q groupings rest
      end
  end.

(** The first row of the group of [row] in [rows]. *)
Definition first_of_group (rows : list Row) (row : Row) : option Row :=
  List.find (fun r => String.eqb (group_of r) (group_of row)) rows.

(** Every member name of a row's payload is a member name of the payload
    of the first row of its group. *)
Definition keys_known (rows : list Row) : Prop :=
  forall row first key,
    row ∈ rows -> first_of_group rows row = Some first ->
    key ∈ Object_keys (payload row) -> key ∈ Object_keys (payload first).


(** Modelled from the spec: the caller of the stage is not in src; the
    caller "drives the outermost Execution Context by repeatedly
    requesting the next item", through [hasMoreResults() -> bool] and
    [nextItem(...) -> (result, headers)].  The loop pulls while the stage
    reports more results and keeps what each pull returns.  [n] bounds
    the number of pulls, [fuel] the inner pulls of each; the last
    component is the value thrown by the pull that ended the loop, if
    any. *)
Fixpoint pull_all (n fuel : nat) (args : Args) (this : GroupByEndpointComponent)
  : option (list (option GroupResult) * GroupByEndpointComponent * option JsError) :=
  if hasMoreResults this then
    match n with
    | O => None
    | Datatypes.S n =>
        match nextItem fuel args this with
        | None => None
        | Some (this, inl err) => Some ([], this, Some err)
        | Some (this, inr response) =>
            match pull_all n fuel args this with
            | None => None
            | Some (out, this, err) => Some (result response :: out, this, err)
            end
        end
    end
  else Some ([], this, None).

End WithImports.

Arguments GroupByEndpointComponent {_} S.
Arguments extractAggregateResult {_} _ : simpl never.

(** *** One environment to run the stage in *)

(** Aggregators as values: a running sum, count, minimum or maximum of
    the numbers fed, or the last value fed. *)
Inductive sample_aggregator :=
| SumAggregator (sum : option Z)
| CountAggregator (count : Z)
| MinAggregator (min : option Z)
| MaxAggregator (max : option Z)
| StaticValueAggregator (value : jsval).

Definition sample_createAggregator (aggregateType : jsval) : sample_aggregator :=
  match aggregateType with
  | JStr "Sum" => SumAggregator None
  | JStr "Count" => CountAggregator 0
  | JStr "Min" => MinAggregator None
  | JStr "Max" => MaxAggregator None
  | _ => StaticValueAggregator JUndefined
  end.

Definition sample_aggregate (a : sample_aggregator) (v : jsval) : sample_aggregator :=
  match a, v with
  | SumAggregator None, JNum n => SumAggregator (Some n)
  | SumAggregator (Some s), JNum n => SumAggregator (Some (s + n))
  | CountAggregator c, JNum n => CountAggregator (c + n)
  | MinAggregator None, JNum n => MinAggregator (Some n)
  | MinAggregator (Some m), JNum n => MinAggregator (Some (Z.min m n))
  | MaxAggregator None, JNum n => MaxAggregator (Some n)
  | MaxAggregator (Some m), JNum n => MaxAggregator (Some (Z.max m n))
  | StaticValueAggregator _, _ => StaticValueAggregator v
  | _, _ => a
  end.

Definition sample_getResult (a : sample_aggregator) : jsval :=
  match a with
  | SumAggregator s | MinAggregator s | MaxAggregator s =>
      match s with Some n => JNum n | None => JUndefined end
  | CountAggregator c => JNum c
  | StaticValueAggregator v => v
  end.

(** [item2] of a value with own members when truthy, else its [item];
    [null] for a value without own members.  The members of a string or
    an array are its positions, so it has neither [item2] nor [item]. *)
Definition sample_aggregateResultOf (v : jsval) : jsval :=
  match v with
  | JObj (f :: fields) =>
      let item2 := default JUndefined (obj_get (f :: fields) "item2") in
      if truthy item2 then item2
      else default JUndefined (obj_get (f :: fields) "item")
  | JStr (String _ _) | JArr (_ :: _) => JUndefined
  | _ => JNull
  end.

(** Headers carry one number, the request charge, added up by
    [mergeHeaders]; the hash of a value is its JSON text. *)
Definition sample_imports : Imports := {|
  Headers := Z;
  getInitialHeader := 0;
  mergeHeaders := Z.add;
  hashObject v := default ""%string (JSON_stringify v);
  emptyGroup := "__empty__";
  Aggregator := sample_aggregator;
  createAggregator := sample_createAggregator;
  aggregate := sample_aggregate;
  getResult := sample_getResult;
  aggregateResultOf := sample_aggregateResultOf;
  RUCapPerOperationExceededErrorCode := "OPERATION_RU_LIMIT_EXCEEDED";
|}.

(** An environment that shows what reaches the aggregators: an
    aggregator is the list of the values it was fed, and
    [aggregateResultOf] marks the value it was applied to. *)
Definition recording_imports : Imports := {|
  Headers := Z;
  getInitialHeader := 0;
  mergeHeaders := Z.add;
  hashObject v := default ""%string (JSON_stringify v);
  emptyGroup := "__empty__";
  Aggregator := list jsval;
  createAggregator _ := [];
  aggregate a v := a ++ [v];
  getResult a := JArr a;
  aggregateResultOf v := JObj [("extracted"%string, v)];
  RUCapPerOperationExceededErrorCode := "OPERATION_RU_LIMIT_EXCEEDED";
|}.

(** An inner context that plays a script: each pull pops the next entry
    and returns or throws it; there are more results while the script is
    not empty. *)
Definition script := list (JsError + Response Z Row).

Definition scripted : ExecutionContext.ExecutionContext unit Z Row script := {|
  ExecutionContext.hasMoreResults s := match s with [] => false | _ => true end;
  ExecutionContext.nextItem _ s :=
    match s with
    | [] => ([], inr {| result := None; headers := 0 |})
    | x :: rest => (rest, x)
    end;
|}.

(** The responses of a paged fetch: the rows of each page one by one at
    no charge, and after each page a response without a row that carries
    the charge of the fetch. *)
Definition responses_of_pages (pages : list (list Row)) : list (Response Z Row) :=
  concat (map (fun page =>
                 map (fun row => {| result := Some row; headers := 0 |}) page
                 ++ [{| result := None; headers := 1 |}])
              pages).

Definition script_of_pages (pages : list (list Row)) : script :=
  map inr (responses_of_pages pages).

(** Rows of the query [SELECT c.k, SUM(c.n) AS sum ... GROUP BY c.k]. *)
Definition sample_row (k : string) (n : Z) : Row :=
  {| groupByItems := JArr [JObj [("item"%string, JStr k)]];
     payload := [("k"%string, JStr k);
                 ("sum"%string, JObj [("item"%string, JNum n)])] |}.

Definition sample_query : QueryInfo :=
  {| groupByAliasToAggregateType :=
       [("k"%string, JNull); ("sum"%string, JStr "Sum")] |}.

(** A row of the group of [k] whose payload has the one member [count]. *)
Definition count_row (k : string) (n : Z) : Row :=
  {| groupByItems := JArr [JObj [("item"%string, JStr k)]];
     payload := [("count"%string, JObj [("item"%string, JNum n)])] |}.

(** A row without group-by items whose one payload member [k] is [null]. *)
Definition null_row : Row :=
  {| groupByItems := JUndefined; payload := [("k"%string, JNull)] |}.

(** A row of the group of [k] whose member [sum], the first of its
    payload, is [null]. *)
Definition null_sum_row (k : string) : Row :=
  {| groupByItems := JArr [JObj [("item"%string, JStr k)]];
     payload := [("sum"%string, JNull); ("k"%string, JStr k)] |}.


(** An error that carries the RU-cap code and a partial result list. *)
Definition sample_ru_error : JsError :=
  {| name := "Error"; code := JStr "OPERATION_RU_LIMIT_EXCEEDED";
     fetchedResults := JArr [JNum 1; JNum 2]; message := "RU cap exceeded" |}.

End GroupBy.

(** ** DiagnosticNodeInternal.js, the remaining methods *)

Module DiagnosticsRest.
Import JS Diagnostics.

(** The object literal [recordSuccessfulNetworkCall] passes to
    [recordNetworkCall]: the statistics of a failed attempt and
    [partitionKeyRangeId]. *)
Record GatewayRequest := {
  statistics : GatewayStatistics;
  partitionKeyRangeId : jsval;
}.

(** The members of a pipeline response the file reads; [response_headers]
    is the object [headers.toJSON()] returns. *)
Record PipelineResponse := {
  response_headers : list (string * jsval);
  status : jsval;
  bodyAsText : jsval;
}.

(** The two further methods of the context class the file calls. *)
Class ContextImports `{Imports} := {
  recordNetworkCall :
    CosmosDiagnosticContext -> GatewayRequest -> CosmosDiagnosticContext;
  recordEndpointResolution :
    CosmosDiagnosticContext -> jsval -> CosmosDiagnosticContext;
}.

(** The public [DiagnosticNode] that [toDiagnosticNode] builds. *)
#[warnings="-register-all"]
Inductive DiagnosticNode :=
| Build_DiagnosticNode (id : string) (nodeType : DiagnosticNodeType)
                       (children : list DiagnosticNode)
                       (data : list (string * jsval))
                       (startTimeUTCInMs durationInMs : Z).

Definition with_durationInMs (n : DiagnosticNodeInternal) (d : Z) :=
  {| id := id n; nodeType := nodeType n; startTimeUTCInMs := startTimeUTCInMs n;
     data := data n; children := children n; durationInMs := d;
     parent := parent n; diagnosticCtx := diagnosticCtx n;
     diagnosticLevel := diagnosticLevel n |}.

(** [String(v)], as [+] applies it to an operand that is not a number. *)
Fixpoint js_toString (v : jsval) : string :=
  match v with
  | JUndefined => "undefined"
  | JNull => "null"
  | JBool true => "true"
  | JBool false => "false"
  | JNum n => pretty n
  | JStr s => s
  | JArr elems =>
      String.concat ","
        (map (fun x => match x with
                       | JUndefined | JNull => ""%string
                       | _ => js_toString x
                       end) elems)
  | JObj _ => "[object Object]"
  | JMap _ => "[object Map]"
  end.

(** Numbers are doubles.  The sum of two integers that are doubles is
    the double nearest to the exact sum, the one with the even
    significand when two are as near.  An integer of magnitude up to
    [2 ^ 53] is a double; above, the doubles are the multiples of
    [2 ^ (Z.log2 a - 52)].  (A count plus an array length stays below
    the largest double.) *)
Definition nearest_double (z : Z) : Z :=
  let a := Z.abs z in
  if a <=? 2 ^ 53 then z
  else
    let ulp := 2 ^ (Z.log2 a - 52) in
    let q := a / ulp in
    let r := a mod ulp in
    let q := if 2 * r <? ulp then q
             else if ulp <? 2 * r then q + 1
             else if Z.even q then q else q + 1 in
    Z.sgn z * (q * ulp).

(** [(current ?? 0) + length], for the value [current] of a member that
    may be absent ([None]) and the length of an array. *)
Definition add_length (current : option jsval) (length : Z) : jsval :=
  match current with
  | None | Some JUndefined | Some JNull => JNum (nearest_double (0 + length))
  | Some (JNum previousCount) => JNum (nearest_double (previousCount + length))
  | Some (JBool b) => JNum (nearest_double ((if b then 1 else 0) + length))
  | Some v => JStr (js_toString v +:+ pretty length)
  end.

Section WithImports.
Context `{ContextImports}.

(** [updateTimestamp(endTimeUTCInMs)] *)
Definition updateTimestamp (h : heap) (this : node_ref) (endTimeUTCInMs : Z)
  : option heap :=
  n ← nodes h !! this;
  Some (set_nodes h
          (<[this := with_durationInMs n (endTimeUTCInMs - startTimeUTCInMs n)]>
             (nodes h))).

(** [calculateResponsePayloadLength(response)]:
    [response?.bodyAsText?.length || 0]. *)
Definition calculateResponsePayloadLength (response : option PipelineResponse) : jsval :=
  match response with
  | None => JNum 0
  | Some r =>
      match bodyAsText r with
      | JUndefined | JNull => JNum 0
      | text =>
          let length := get_property text "length" in
          if truthy length then length else JNum 0
      end
  end.

(** The object literal bound to [gatewayRequest]; [now] is the value
    [getCurrentTimestampInMs()] returns, [rangeId] the member
    [requestContext.partitionKeyRangeId]. *)
Definition gatewayRequest_of (startTimeUTCInMs : Z) (requestContext : RequestContext)
           (rangeId : jsval) (pipelineResponse : PipelineResponse)
           (substatus : jsval) (now : Z) : GatewayRequest :=
  {| statistics :=
       {| activityId :=
            default JUndefined
              (obj_get (response_headers pipelineResponse) HttpHeaders_ActivityId);
          gw_startTimeUTCInMs := startTimeUTCInMs;
          gw_durationInMs := now - startTimeUTCInMs;
          statusCode := status pipelineResponse;
          subStatusCode := substatus;
          requestPayloadLengthInBytes := calculateRequestPayloadLength requestContext;
          responsePayloadLengthInBytes :=
            calculateResponsePayloadLength (Some pipelineResponse);
          gw_operationType := operationType requestContext;
          gw_resourceType := resourceType requestContext |};
     partitionKeyRangeId := rangeId |}.

(** The members added to [requestData] behind the [debugUnsafe] gate of
    [recordSuccessfulNetworkCall]. *)
Definition requestData_unsafe_success (requestContext : RequestContext)
           (pipelineResponse : PipelineResponse) (url : jsval)
  : list (string * jsval) :=
  [("headers"%string, sanitizeHeaders (headers requestContext));
   ("requestBody"%string, body requestContext);
   ("responseBody"%string, bodyAsText pipelineResponse);
   ("url"%string, url)].

(** The object [recordSuccessfulNetworkCall] passes to [addData]. *)
Definition success_data (g : GatewayRequest) (requestData : list (string * jsval))
  : list (string * jsval) :=
  [("requestPayloadLengthInBytes"%string,
    requestPayloadLengthInBytes (statistics g));
   ("responsePayloadLengthInBytes"%string,
    responsePayloadLengthInBytes (statistics g));
   ("startTimeUTCInMs"%string, JNum (gw_startTimeUTCInMs (statistics g)));
   ("durationInMs"%string, JNum (gw_durationInMs (statistics g)));
   ("requestData"%string, JObj requestData)].

(** [recordSuccessfulNetworkCall(startTimeUTCInMs, requestContext,
    pipelineResponse, substatus, url)] *)
Definition recordSuccessfulNetworkCall (h : heap) (this : node_ref)
           (startTimeUTCInMs : Z) (requestContext : RequestContext)
           (rangeId : jsval) (pipelineResponse : PipelineResponse)
           (substatus url : jsval) (now : Z) : option heap :=
  n ← nodes h !! this;
  let gatewayRequest :=
    gatewayRequest_of startTimeUTCInMs requestContext rangeId pipelineResponse
                      substatus now in
  let requestData :=
    [("OperationType"%string, gw_operationType (statistics gatewayRequest));
     ("resourceType"%string, gw_resourceType (statistics gatewayRequest));
     ("requestPayloadLengthInBytes"%string,
      requestPayloadLengthInBytes (statistics gatewayRequest))] in
  let requestData :=
    if allowTracing debugUnsafe (diagnosticLevel n)
    then obj_assign (obj_assign [] requestData)
           (requestData_unsafe_success requestContext pipelineResponse url)
    else requestData in
  h1 ← addData h this (success_data gatewayRequest requestData) None None;
  n1 ← nodes h1 !! this;
  ctx ← contexts h1 !! diagnosticCtx n1;
  Some (set_contexts h1
          (<[diagnosticCtx n1 := recordNetworkCall ctx gatewayRequest]> (contexts h1))).

(** [recordEndpointResolution(location)] *)
Definition recordEndpointResolution_node (h : heap) (this : node_ref)
           (location : jsval) : option heap :=
  h1 ← addData h this [("selectedLocation"%string, location)] None None;
  n ← nodes h1 !! this;
  ctx ← contexts h1 !! diagnosticCtx n;
  Some (set_contexts h1
          (<[diagnosticCtx n := recordEndpointResolution ctx location]> (contexts h1))).

(** [recordQueryResult(resources, level)].  The member
    [queryRecordsRead] of [this.data] is assigned in place. *)
Definition recordQueryResult (h : heap) (this : node_ref)
           (resources : jsval) (level : CosmosDbDiagnosticLevel) : option heap :=
  n ← nodes h !! this;
  if allowTracing level (diagnosticLevel n) then
    match resources with
    | JArr elems =>
        Some (set_nodes h
                (<[this :=
                     with_data n
                       (obj_set (data n) "queryRecordsRead"
                          (add_length (obj_get (data n) "queryRecordsRead")
                                      (Z.of_nat (length elems))))]>
                   (nodes h)))
    | _ => Some h
    end
  else Some h.

(** [toDiagnosticNode()].  [fuel] bounds the depth of the recursion over
    [children]; [None] means the bound was reached or a reference is not
    in the store. *)
Fixpoint toDiagnosticNode (fuel : nat) (h : heap) (this : node_ref)
  : option DiagnosticNode :=
  match fuel with
  | O => None
  | S fuel =>
      n ← nodes h !! this;
      cs ← mapM (toDiagnosticNode fuel h) (children n);
      Some (Build_DiagnosticNode (id n) (nodeType n) cs (data n)
                                 (startTimeUTCInMs n) (durationInMs n))
  end.

(** One call of a method of a node. *)
Inductive call :=
| Call_addLog (this : node_ref) (msg : string)
| Call_updateTimestamp (this : node_ref) (endTimeUTCInMs : Z)
| Call_recordSuccessfulNetworkCall
    (this : node_ref) (startTimeUTCInMs : Z) (requestContext : RequestContext)
    (rangeId : jsval) (pipelineResponse : PipelineResponse)
    (substatus url : jsval) (now : Z)
| Call_recordFailedNetworkCall
    (this : node_ref) (startTimeUTCInMs : Z) (requestContext : RequestContext)
    (retryAttemptNumber : Z) (statusCode substatusCode : jsval)
    (responseHeaders : list (string * jsval)) (now : Z)
| Call_recordEndpointResolution (this : node_ref) (location : jsval)
| Call_addData (this : node_ref) (d : list (string * jsval))
               (msg : option string) (level : option CosmosDbDiagnosticLevel)
| Call_addChildNode (this child : node_ref) (level : CosmosDbDiagnosticLevel)
                    (metadataType : jsval)
| Call_initializeChildNode
    (this : node_ref) (type : DiagnosticNodeType) (level : CosmosDbDiagnosticLevel)
    (d : option (list (string * jsval))) (uuid : string) (now : Z)
| Call_recordQueryResult (this : node_ref) (resources : jsval)
                         (level : CosmosDbDiagnosticLevel).

(** The store after the call. *)
Definition run_call (h : heap) (c : call) : option heap :=
  match c with
  | Call_addLog this msg => addLog h this msg
  | Call_updateTimestamp this e => updateTimestamp h this e
  | Call_recordSuccessfulNetworkCall this s rc r p ss u now =>
      recordSuccessfulNetworkCall h this s rc r p ss u now
  | Call_recordFailedNetworkCall this s rc a sc ssc rh now =>
      recordFailedNetworkCall h this s rc a sc ssc rh now
  | Call_recordEndpointResolution this l => recordEndpointResolution_node h this l
  | Call_addData this d msg level => addData h this d msg level
  | Call_addChildNode this child level m => fst <$> addChildNode h this child level m
  | Call_initializeChildNode this t level d uuid now =>
      fst <$> initializeChildNode h this t level d uuid now
  | Call_recordQueryResult this r level => recordQueryResult h this r level
  end.

(** The store after a sequence of calls, each made on the store the
    previous one left. *)
Fixpoint run_calls (h : heap) (cs : list call) : option heap :=
  match cs with
  | [] => Some h
  | c :: cs => h1 ← run_call h c; run_calls h1 cs
  end.

(** What a node keeps of an earlier state of it: its id, type, start
    time, context and level, and its earlier children as a prefix of its
    children. *)
Definition keeps_node (n n' : DiagnosticNodeInternal) : Prop :=
  id n' = id n /\ nodeType n' = nodeType n /\
  startTimeUTCInMs n' = startTimeUTCInMs n /\
  diagnosticCtx n' = diagnosticCtx n /\
  diagnosticLevel n' = diagnosticLevel n /\
  children n `prefix_of` children n'.

Definition nodes_extend (ns ns' : list DiagnosticNodeInternal) : Prop :=
  forall r n, ns !! r = Some n -> exists n', ns' !! r = Some n' /\ keeps_node n n'.

(** What a store keeps of an earlier one: every node is still there and
    keeps the above, and the contexts are as many as before. *)
Definition extends (h h' : heap) : Prop :=
  nodes_extend (nodes h) (nodes h') /\
  length (contexts h') = length (contexts h).

(** What a call that only records on a node leaves: the store differs
    from the earlier one at most at that node, which keeps its children
    and its parent besides what [keeps_node] lists. *)
Definition updates_node (h : heap) (this : node_ref) (h' : heap) : Prop :=
  exists n n',
    nodes h !! this = Some n /\
    nodes h' = <[this := n']> (nodes h) /\
    keeps_node n n' /\
    children n' = children n /\
    parent n' = parent n /\
    length (contexts h') = length (contexts h).

(** The node a call is made on. *)
Definition call_target (c : call) : node_ref :=
  match c with
  | Call_addLog this _
  | Call_updateTimestamp this _
  | Call_recordSuccessfulNetworkCall this _ _ _ _ _ _ _
  | Call_recordFailedNetworkCall this _ _ _ _ _ _ _
  | Call_recordEndpointResolution this _
  | Call_addData this _ _ _
  | Call_addChildNode this _ _ _
  | Call_initializeChildNode this _ _ _ _ _
  | Call_recordQueryResult this _ _ => this
  end.

(** The calls that can link a node under another. *)
Definition links (c : call) : bool :=
  match c with
  | Call_addChildNode _ _ _ _ | Call_initializeChildNode _ _ _ _ _ _ => true
  | _ => false
  end.

Definition is_addChildNode (c : call) : bool :=
  match c with Call_addChildNode _ _ _ _ => true | _ => false end.

(** Every child of a node was allocated after it and is in the store: the
    shape of a store whose links all come from [initializeChildNode]. *)
Definition ordered (h : heap) : Prop :=
  forall r n c,
    nodes h !! r = Some n -> c ∈ children n ->
    (r < c)%nat /\ (c < length (nodes h))%nat.

End WithImports.

(** An environment whose context is the list of the calls made on it. *)
#[warnings="-register-all"]
Inductive context_event :=
| NetworkCall (g : GatewayRequest)
| FailedAttempt (g : GatewayStatistics) (retryAttemptNumber : Z)
| EndpointResolution (location : jsval)
| Merged (child : list context_event) (metadataType : jsval).

Definition tracing_imports : Imports := {|
  CosmosDiagnosticContext := list context_event;
  new_CosmosDiagnosticContext := [];
  recordFailedAttempt c g n := c ++ [FailedAttempt g n];
  mergeDiagnostics c child metadataType := c ++ [Merged child metadataType];
  allowTracing levelToCheck configured :=
    (level_rank levelToCheck <=? level_rank configured)%nat;
  HttpHeaders_ActivityId := "x-ms-activity-id";
  prepareURL endpoint path :=
    match endpoint, path with
    | JStr e, JStr p => JStr (e +:+ p)
    | _, _ => JUndefined
    end;
|}.

Definition tracing_context : ContextImports (H := tracing_imports) :=
  @Build_ContextImports tracing_imports
    (fun (c : list context_event) g => c ++ [NetworkCall g])
    (fun (c : list context_event) location => c ++ [EndpointResolution location]).

(** A store of one root node at the given level with a new context. *)
Definition root_heap (level : CosmosDbDiagnosticLevel) : heap (H := tracing_imports) :=
  fst (new_DiagnosticNodeInternal (H := tracing_imports)
         {| nodes := []; contexts := [] |}
         level CLIENT_REQUEST_NODE None [] 0 None "root").

(** The node of [root_heap]. *)
Definition root_node (level : CosmosDbDiagnosticLevel) : DiagnosticNodeInternal :=
  {| id := "root"; nodeType := CLIENT_REQUEST_NODE; startTimeUTCInMs := 0;
     data := []; children := []; durationInMs := 0; parent := None;
     diagnosticCtx := 0; diagnosticLevel := level |}.

(** A store of four nodes: a root, two children of it asked for in
    turn, and a child of the first of them. *)
Definition tree_calls : list call :=
  [Call_initializeChildNode 0 HTTP_REQUEST info None "a" 1;
   Call_initializeChildNode 0 METADATA_REQUEST_NODE info None "b" 2;
   Call_initializeChildNode 1 REQUEST_ATTEMPTS info None "c" 3].

Definition tree_heap : heap (H := tracing_imports) :=
  default (root_heap debug)
          (run_calls (H0 := tracing_context) (root_heap debug) tree_calls).

Definition sample_response : PipelineResponse :=
  {| response_headers := [("x-ms-activity-id"%string, JStr "activity")];
     status := JNum 200; bodyAsText := JStr "[1,2]" |}.

End DiagnosticsRest.

(** ** GroupByEndpointComponent.js, further notions *)

Module GroupByOrder.
Import JS GroupBy.

(** The identities in [ids] that are not in [seen], each once, in the
    order of their first occurrence. *)
Fixpoint first_occurrences (seen ids : list string) : list string :=
  match ids with
  | [] => []
  | id :: rest =>
      if bool_decide (id ∈ seen) then first_occurrences seen rest
      else id :: first_occurrences (seen ++ [id]) rest
  end.

End GroupByOrder.

(** * Theorems *)

(** ** Facts about JavaScript values *)

Section JSFacts.
Import JS.

Lemma strict_equals_undefined (v : jsval) :
  strict_equals v JUndefined = true <-> v = JUndefined.
Proof. destruct v; simpl; split; congruence. Qed.

Lemma strict_equals_refl (v : jsval) :
  is_primitive v = true -> strict_equals v v = true.
Proof.
  destruct v; simpl; try congruence; intros _.
  - apply Bool.eqb_reflx.
  - apply Z.eqb_refl.
  - apply String.eqb_refl.
Qed.

Lemma strict_equals_eq (a b : jsval) : strict_equals a b = true -> a = b.
Proof.
  destruct a, b; simpl; try congruence; intros E.
  - apply Bool.eqb_prop in E. congruence.
  - apply Z.eqb_eq in E. congruence.
  - apply String.eqb_eq in E. congruence.
Qed.

Lemma scalar_typeof (v : jsval) :
  scalar v ->
  String.eqb (typeof v) "string" || String.eqb (typeof v) "number"
  || String.eqb (typeof v) "boolean" = true.
Proof. destruct v; simpl; intros []; reflexivity. Qed.

Lemma scalar_not_undefined (v : jsval) : scalar v -> v <> JUndefined.
Proof. destruct v; simpl; intros [] ?; discriminate. Qed.
End JSFacts.

(** ** Partition key extraction *)

Section PartitionKeyFacts.
Import JS PartitionKey.
Context `{Imports}.

Lemma extractPartitionKey_scalar path doc :
  scalar (descend (parsePath path) doc) ->
  extractPartitionKey path doc = descend (parsePath path) doc.
Proof.
  intros Hs. unfold extractPartitionKey. cbv zeta.
  rewrite (scalar_typeof _ Hs). reflexivity.
Qed.

Lemma extractPartitionKey_missing path doc :
  NullPartitionKeyLiteral <> JUndefined ->
  descend (parsePath path) doc = JUndefined ->
  extractPartitionKey path doc = NonePartitionKeyLiteral.
Proof.
  intros Hnull Hd. unfold extractPartitionKey. rewrite Hd. simpl.
  destruct NullPartitionKeyLiteral; congruence.
Qed.

Lemma extractPartitionKey_null path doc :
  is_primitive NullPartitionKeyLiteral = true ->
  descend (parsePath path) doc = NullPartitionKeyLiteral ->
  extractPartitionKey path doc = NullPartitionKeyLiteral.
Proof.
  intros Hprim Hd. unfold extractPartitionKey. rewrite Hd. cbv zeta.
  rewrite (strict_equals_refl _ Hprim).
  destruct (_ || _); reflexivity.
Qed.

(** The [forEach] loop pushes one key per path when no path yields
    [undefined]. *)
Lemma forEach_path_all_supported doc ps acc :
  (forall p, In p ps -> extractPartitionKey p doc <> JUndefined) ->
  forEach_path doc ps acc = acc ++ map (fun p => extractPartitionKey p doc) ps.
Proof.
  revert acc. induction ps as [|p ps IH]; intros acc Hs; simpl.
  - now rewrite app_nil_r.
  - destruct (strict_equals (extractPartitionKey p doc) JUndefined) eqn:E.
    + apply strict_equals_undefined in E. exfalso. apply (Hs p); auto with datatypes.
    + rewrite IH by (intros; apply Hs; auto with datatypes).
      now rewrite <- app_assoc.
Qed.

(** [undefined] is returned for a malformed definition and for no
    other. *)
Lemma extractPartitionKeys_undefined_iff doc def :
  extractPartitionKeys doc def = None <-> ~ well_formed def.
Proof.
  unfold extractPartitionKeys, well_formed. split.
  - intros E (d & ps & -> & Hp & Hne). rewrite Hp in E.
    destruct ps as [|p ps]; [congruence|]. simpl in E.
    case_bool_decide; [discriminate|].
    destruct (_ && _); discriminate.
  - intros Hn. destruct def as [d|]; [|reflexivity].
    destruct (paths d) as [ps|] eqn:Hp; [|reflexivity].
    destruct ps as [|p ps]; [reflexivity|].
    exfalso. apply Hn. exists d, (p :: ps). repeat split; auto; discriminate.
Qed.

End PartitionKeyFacts.

Section PartitionKeyClaims.
Import JS PartitionKey.
Context `{Imports}.

(** C2 (as amended).  [extractPartitionKeys] is a total function: it
    returns and does not throw.  For a malformed definition (none, no
    [paths], or an empty list of paths) it returns [undefined].  For a
    well-formed definition whose [systemKey] is [true] it returns the
    empty list.  For a well-formed definition that is not a system key
    and whose paths all lead to values of a supported type, it returns
    the extracted values, one per path, in the order of the paths. *)
Theorem extractPartitionKeys_outcomes (doc : jsval)
        (def : option PartitionKeyDefinition) :
  (~ well_formed def -> extractPartitionKeys doc def = None) /\
  (forall d ps,
      def = Some d -> paths d = Some ps -> ps <> [] ->
      (systemKey d = Some true -> extractPartitionKeys doc def = Some []) /\
      (systemKey d <> Some true ->
       (forall p, In p ps -> extractPartitionKey p doc <> JUndefined) ->
       exists keys,
         extractPartitionKeys doc def = Some keys /\
         keys = map (fun p => extractPartitionKey p doc) ps /\
         length keys = length ps)).
Proof.
  split.
  - apply extractPartitionKeys_undefined_iff.
  - intros d ps -> Hp Hne. unfold extractPartitionKeys. rewrite Hp.
    destruct ps as [|p ps]; [congruence|]. simpl.
    split.
    + intros Hsk. rewrite bool_decide_eq_true_2 by assumption. reflexivity.
    + intros Hsk Hsup. rewrite bool_decide_eq_false_2 by assumption.
      eexists. split; [|split; [reflexivity|simpl; f_equal; apply length_map]].
      destruct ps as [|p' ps]; simpl.
      * case_bool_decide as Hd; simpl.
        -- now inversion Hd.
        -- f_equal.
           destruct (strict_equals (extractPartitionKey p doc) JUndefined) eqn:E;
             [|reflexivity].
           apply strict_equals_undefined in E. exfalso.
           apply (Hsup p); auto with datatypes.
      * f_equal.
        apply (forEach_path_all_supported doc (p :: p' :: ps) []). exact Hsup.
Qed.

(** C3.  With [/a/b] parsed into the segments [a] and [b], and the two
    literals different from each other and from [undefined], the null
    literal being a primitive value so that [===] finds it:
    the document [{a:{b:"x"}}] yields the string ["x"]; the document
    [{}] yields the none literal; a document whose value at the path is
    the null literal yields the null literal, which is not the none
    literal; and for a definition of three paths on a document that has
    scalars at the first two and nothing at the third, the result is the
    list of the two scalars and the none literal. *)
Theorem extractPartitionKey_three_outcomes :
  parsePath "/a/b" = ["a"; "b"]%string ->
  NullPartitionKeyLiteral <> JUndefined ->
  NonePartitionKeyLiteral <> JUndefined ->
  NullPartitionKeyLiteral <> NonePartitionKeyLiteral ->
  is_primitive NullPartitionKeyLiteral = true ->
  extractPartitionKey "/a/b" (JObj [("a"%string, JObj [("b"%string, JStr "x")])])
  = JStr "x" /\
  extractPartitionKey "/a/b" (JObj []) = NonePartitionKeyLiteral /\
  extractPartitionKey "/a/b"
    (JObj [("a"%string, JObj [("b"%string, NullPartitionKeyLiteral)])])
  = NullPartitionKeyLiteral /\
  (forall path doc,
      descend (parsePath path) doc = NullPartitionKeyLiteral ->
      extractPartitionKey path doc = NullPartitionKeyLiteral /\
      extractPartitionKey path doc <> NonePartitionKeyLiteral) /\
  (forall doc p1 p2 p3 v1 v2 sk,
      scalar v1 -> scalar v2 ->
      descend (parsePath p1) doc = v1 ->
      descend (parsePath p2) doc = v2 ->
      descend (parsePath p3) doc = JUndefined ->
      sk <> Some true ->
      extractPartitionKeys doc (Some {| paths := Some [p1; p2; p3]; systemKey := sk |})
      = Some [v1; v2; NonePartitionKeyLiteral]).
Proof.
  intros Hparse Hnull Hnone Hdiff Hprim.
  assert (Hgen : forall path doc,
             descend (parsePath path) doc = NullPartitionKeyLiteral ->
             extractPartitionKey path doc = NullPartitionKeyLiteral).
  { intros. now apply extractPartitionKey_null. }
  repeat split.
  - rewrite extractPartitionKey_scalar; rewrite Hparse; [reflexivity|exact I].
  - apply extractPartitionKey_missing; [assumption|]. now rewrite Hparse.
  - apply Hgen. now rewrite Hparse.
  - now apply Hgen.
  - rewrite Hgen by assumption. assumption.
  - intros doc p1 p2 p3 v1 v2 sk Hs1 Hs2 H1 H2 H3 Hsk.
    unfold extractPartitionKeys. simpl.
    rewrite bool_decide_eq_false_2 by assumption.
    rewrite (extractPartitionKey_scalar p1), H1 by now rewrite H1.
    rewrite (extractPartitionKey_scalar p2), H2 by now rewrite H2.
    rewrite (extractPartitionKey_missing p3) by assumption.
    destruct (strict_equals v1 JUndefined) eqn:E1.
    { apply strict_equals_undefined in E1. now apply scalar_not_undefined in Hs1. }
    destruct (strict_equals v2 JUndefined) eqn:E2.
    { apply strict_equals_undefined in E2. now apply scalar_not_undefined in Hs2. }
    destruct (strict_equals NonePartitionKeyLiteral JUndefined) eqn:E3.
    { now apply strict_equals_undefined in E3. }
    reflexivity.
Qed.

End PartitionKeyClaims.

(** C2, the claim as stated, fails on a system key: the definition
    [{paths: ["/a"], systemKey: true}] is well formed and the document
    [{a: "x"}] has a string at its one path, yet the result is the empty
    list, which has no entry for that path. *)
Lemma extractPartitionKeys_systemKey_no_entry :
  PartitionKey.extractPartitionKey (H := PartitionKey.sample_imports)
    "/a" (JS.JObj [("a"%string, JS.JStr "x")]) = JS.JStr "x" /\
  PartitionKey.extractPartitionKeys (H := PartitionKey.sample_imports)
    (JS.JObj [("a"%string, JS.JStr "x")])
    (Some {| PartitionKey.paths := Some ["/a"%string];
             PartitionKey.systemKey := Some true |})
  = Some [] /\
  length (@nil JS.jsval) <> length ["/a"%string].
Proof. repeat split; simpl; lia. Qed.

(** The [return undefined] inside the [forEach] callback does not leave
    [extractPartitionKeys]: on the document [{a: [1], b: "x"}] with the
    paths [/a] and [/b] the array at [/a] is of no supported type, and the
    result is the one-entry list of the key at [/b], not [undefined]. *)
Lemma extractPartitionKeys_unsupported_is_skipped :
  PartitionKey.extractPartitionKey (H := PartitionKey.sample_imports)
    "/a" (JS.JObj [("a"%string, JS.JArr [JS.JNum 1]); ("b"%string, JS.JStr "x")])
  = JS.JUndefined /\
  PartitionKey.extractPartitionKeys (H := PartitionKey.sample_imports)
    (JS.JObj [("a"%string, JS.JArr [JS.JNum 1]); ("b"%string, JS.JStr "x")])
    (Some {| PartitionKey.paths := Some ["/a"; "/b"]%string;
             PartitionKey.systemKey := None |})
  = Some [JS.JStr "x"].
Proof. split; vm_compute; reflexivity. Qed.

(** The theorem of C2 on the document [{a: "x", b: 2}] and the paths
    [/a] and [/b]. *)
Lemma extractPartitionKeys_outcomes_witness :
  PartitionKey.extractPartitionKeys (H := PartitionKey.sample_imports)
    (JS.JObj [("a"%string, JS.JStr "x"); ("b"%string, JS.JNum 2)])
    (Some {| PartitionKey.paths := Some ["/a"; "/b"]%string;
             PartitionKey.systemKey := None |})
  = Some [JS.JStr "x"; JS.JNum 2].
Proof.
  destruct (extractPartitionKeys_outcomes (H := PartitionKey.sample_imports)
              (JS.JObj [("a"%string, JS.JStr "x"); ("b"%string, JS.JNum 2)])
              (Some {| PartitionKey.paths := Some ["/a"; "/b"]%string;
                       PartitionKey.systemKey := None |})) as [_ Hwf].
  destruct (Hwf _ ["/a"; "/b"]%string eq_refl eq_refl ltac:(discriminate))
    as [_ Hkeys].
  destruct Hkeys as (keys & -> & -> & _).
  - discriminate.
  - intros p [<-|[<-|[]]]; vm_compute; discriminate.
  - reflexivity.
Defined.

(** The theorem of C3 in the sample environment, on a document without
    a member [c]. *)
Lemma extractPartitionKey_three_outcomes_witness :
  PartitionKey.extractPartitionKeys (H := PartitionKey.sample_imports)
    (JS.JObj [("a"%string, JS.JStr "x"); ("b"%string, JS.JNum 2)])
    (Some {| PartitionKey.paths := Some ["/a"; "/b"; "/c"]%string;
             PartitionKey.systemKey := None |})
  = Some [JS.JStr "x"; JS.JNum 2; JS.JObj []].
Proof.
  refine (proj2 (proj2 (proj2 (proj2
    (extractPartitionKey_three_outcomes (H := PartitionKey.sample_imports)
       eq_refl _ _ _ eq_refl))))
    (JS.JObj [("a"%string, JS.JStr "x"); ("b"%string, JS.JNum 2)])
    "/a"%string "/b"%string "/c"%string (JS.JStr "x") (JS.JNum 2) None
    I I eq_refl eq_refl eq_refl _); simpl; discriminate.
Defined.

(** ** Association lists *)

Section AssocFacts.
Import JS.
Context {K V : Type} (eqb : K -> K -> bool).
Hypothesis eqb_spec : forall x y, eqb x y = true <-> x = y.

Lemma eqb_same x : eqb x x = true.
Proof. now apply eqb_spec. Qed.

Lemma eqb_other x y : x <> y -> eqb x y = false.
Proof.
  intros Hne. destruct (eqb x y) eqn:E; [|reflexivity].
  now apply eqb_spec in E.
Qed.

Lemma assoc_get_set_eq (l : list (K * V)) k v :
  assoc_get eqb (assoc_set eqb l k v) k = Some v.
Proof.
  induction l as [|[k' v'] l IH]; simpl.
  - now rewrite eqb_same.
  - destruct (eqb k' k) eqn:E; simpl; rewrite E; [reflexivity|exact IH].
Qed.

Lemma assoc_get_set_ne (l : list (K * V)) k k' v :
  k <> k' -> assoc_get eqb (assoc_set eqb l k v) k' = assoc_get eqb l k'.
Proof.
  intros Hne. induction l as [|[k1 v1] l IH]; simpl.
  - now rewrite eqb_other.
  - destruct (eqb k1 k) eqn:E; simpl.
    + apply eqb_spec in E. subst k1. now rewrite eqb_other.
    + now rewrite IH.
Qed.

Lemma assoc_get_None (l : list (K * V)) k :
  assoc_get eqb l k = None <-> k ∉ map fst l.
Proof.
  induction l as [|[k' v'] l IH]; simpl.
  - split; [intros _; apply not_elem_of_nil|reflexivity].
  - rewrite not_elem_of_cons. destruct (eqb k' k) eqn:E.
    + apply eqb_spec in E. split; [discriminate|]. intros [Hn _]. congruence.
    + rewrite IH. split; [|tauto].
      intros Hn. split; [|exact Hn].
      intros ->. rewrite eqb_same in E. discriminate.
Qed.


Lemma assoc_get_Some_elem (l : list (K * V)) k v :
  assoc_get eqb l k = Some v -> k ∈ map fst l.
Proof.
  induction l as [|[k' v'] l IH]; simpl; [discriminate|].
  destruct (eqb k' k) eqn:E; intros Hg.
  - apply eqb_spec in E. subst. apply list_elem_of_here.
  - apply list_elem_of_further. auto.
Qed.

(** Setting a key that is present keeps the list of keys. *)
Lemma assoc_set_keys_present (l : list (K * V)) k v :
  k ∈ map fst l -> map fst (assoc_set eqb l k v) = map fst l.
Proof.
  induction l as [|[k' v'] l IH]; simpl.
  - intros Hin. now apply elem_of_nil in Hin.
  - intros Hin. destruct (eqb k' k) eqn:E; simpl; [reflexivity|].
    f_equal. apply IH. apply elem_of_cons in Hin as [->|Hin]; [|assumption].
    rewrite eqb_same in E. discriminate.
Qed.

(** Setting a new key appends it. *)
Lemma assoc_set_absent (l : list (K * V)) k v :
  k ∉ map fst l -> assoc_set eqb l k v = l ++ [(k, v)].
Proof.
  induction l as [|[k' v'] l IH]; simpl; [reflexivity|].
  rewrite not_elem_of_cons. intros [Hne Hn].
  rewrite eqb_other by congruence.
  f_equal. apply IH. assumption.
Qed.

Lemma assoc_set_keys_absent (l : list (K * V)) k v :
  k ∉ map fst l -> map fst (assoc_set eqb l k v) = map fst l ++ [k].
Proof. intros Hn. rewrite assoc_set_absent by assumption. now rewrite map_app. Qed.



End AssocFacts.

Lemma string_eqb_spec (x y : string) : String.eqb x y = true <-> x = y.
Proof. apply String.eqb_eq. Qed.

(** ** Diagnostic nodes *)

Section DiagnosticsFacts.
Import JS Diagnostics.
Context `{Imports}.

Lemma obj_get_set_eq (o : list (string * jsval)) k v :
  obj_get (obj_set o k v) k = Some v.
Proof. apply assoc_get_set_eq, string_eqb_spec. Qed.

Lemma obj_get_set_ne (o : list (string * jsval)) k k' v :
  k <> k' -> obj_get (obj_set o k v) k' = obj_get o k'.
Proof. apply assoc_get_set_ne, string_eqb_spec. Qed.

(** [addData] without a message and at the node's own level: nothing
    at level [info], a shallow merge otherwise. *)
Lemma addData_plain (h : heap) this n d :
  nodes h !! this = Some n ->
  addData h this d None None =
  Some (if bool_decide (diagnosticLevel n <> info)
        then set_nodes h (<[this := with_data n (obj_assign (obj_assign [] (data n)) d)]>
                            (nodes h))
        else h).
Proof.
  intros Hn. unfold addData. rewrite Hn. simpl.
  case_bool_decide; reflexivity.
Qed.

(** The members [requestData] has when the [debugUnsafe] gate passes. *)
Lemma requestData_with_unsafe rc :
  obj_assign (obj_assign [] (requestData_base rc)) (requestData_unsafe rc)
  = requestData_base rc ++ requestData_unsafe rc.
Proof. reflexivity. Qed.

End DiagnosticsFacts.

Section DiagnosticsClaims.
Import JS Diagnostics.
Context `{Imports}.

(** C4.  [addChildNode] returns the child and, whatever the level,
    replaces the context of the current node by its merge with the
    child's context under the given metadata kind, leaving every other
    context as it was.  When the gate passes for the given level, the
    child's [parent] is the current node and the child is the new last
    element of the current node's [children]; when the gate fails, no
    node changes. *)
Theorem addChildNode_merges_and_links (h : heap) (this child : node_ref)
        (level : CosmosDbDiagnosticLevel) (metadataType : jsval)
        (n c : DiagnosticNodeInternal) (ctx childCtx : CosmosDiagnosticContext) :
  nodes h !! this = Some n ->
  nodes h !! child = Some c ->
  contexts h !! diagnosticCtx n = Some ctx ->
  contexts h !! diagnosticCtx c = Some childCtx ->
  exists h',
    addChildNode h this child level metadataType = Some (h', child) /\
    contexts h' =
      <[diagnosticCtx n := mergeDiagnostics ctx childCtx metadataType]> (contexts h) /\
    contexts h' !! diagnosticCtx n
      = Some (mergeDiagnostics ctx childCtx metadataType) /\
    (allowTracing level (diagnosticLevel n) = true ->
     (exists n', nodes h' !! this = Some n' /\
                 children n' = children n ++ [child]) /\
     (exists c', nodes h' !! child = Some c' /\ parent c' = Some this)) /\
    (allowTracing level (diagnosticLevel n) = false -> nodes h' = nodes h).
Proof.
  intros Hn Hc Hctx Hcc.
  pose proof (lookup_lt_Some _ _ _ Hn) as Lt.
  pose proof (lookup_lt_Some _ _ _ Hc) as Lc.
  pose proof (lookup_lt_Some _ _ _ Hctx) as Lx.
  unfold addChildNode. rewrite Hn, Hc. simpl. rewrite Hctx, Hcc. simpl.
  destruct (allowTracing level (diagnosticLevel n)) eqn:G.
  - destruct (decide (this = child)) as [->|Hne].
    + assert (c = n) by congruence. subst c.
      rewrite list_lookup_insert_eq by assumption. simpl.
      eexists. split; [reflexivity|]. simpl.
      split; [reflexivity|]. split; [now apply list_lookup_insert_eq|].
      split; [|discriminate]. intros _.
      rewrite list_lookup_insert_eq by now rewrite length_insert.
      split; eexists; split; reflexivity.
    + rewrite list_lookup_insert_ne by congruence. rewrite Hn. simpl.
      eexists. split; [reflexivity|]. simpl.
      split; [reflexivity|]. split; [now apply list_lookup_insert_eq|].
      split; [|discriminate]. intros _. split.
      * rewrite list_lookup_insert_eq by now rewrite length_insert.
        eexists; split; reflexivity.
      * rewrite list_lookup_insert_ne by assumption.
        rewrite list_lookup_insert_eq by assumption.
        eexists; split; reflexivity.
  - eexists. split; [reflexivity|]. simpl.
    split; [reflexivity|]. split; [now apply list_lookup_insert_eq|].
    split; [discriminate|]. reflexivity.
Qed.

(** C5.  When the gate fails for the requested level,
    [initializeChildNode] returns the node itself and changes nothing.
    When it passes, it returns a reference that was not in use before
    the call, to a node of the requested type and data whose parent is
    the current node and whose context and level are those of the
    current node; that reference is the new last element of the current
    node's [children], and no context is created. *)
Theorem initializeChildNode_gate (h : heap) (this : node_ref)
        (type : DiagnosticNodeType) (level : CosmosDbDiagnosticLevel)
        (d : option (list (string * jsval))) (uuid : string) (now : Z)
        (n : DiagnosticNodeInternal) :
  nodes h !! this = Some n ->
  (allowTracing level (diagnosticLevel n) = false ->
   initializeChildNode h this type level d uuid now = Some (h, this)) /\
  (allowTracing level (diagnosticLevel n) = true ->
   exists h' child c n',
     initializeChildNode h this type level d uuid now = Some (h', child) /\
     nodes h !! child = None /\
     nodes h' !! child = Some c /\
     nodeType c = type /\ data c = default [] d /\ children c = [] /\
     parent c = Some this /\
     diagnosticCtx c = diagnosticCtx n /\
     diagnosticLevel c = diagnosticLevel n /\
     nodes h' !! this = Some n' /\
     children n' = children n ++ [child] /\
     contexts h' = contexts h).
Proof.
  intros Hn. pose proof (lookup_lt_Some _ _ _ Hn) as Lt.
  unfold initializeChildNode. rewrite Hn. simpl.
  split; intros G; rewrite G; [reflexivity|]. simpl.
  rewrite lookup_app_l by assumption. rewrite Hn. simpl.
  eexists _, (length (nodes h)), _, _.
  split; [reflexivity|]. simpl.
  split; [now apply lookup_ge_None|].
  split.
  { rewrite list_lookup_insert_ne by lia.
    rewrite lookup_app_r by lia. rewrite Nat.sub_diag. reflexivity. }
  repeat (split; [reflexivity|]).
  split; [apply list_lookup_insert_eq; rewrite length_app; simpl; lia|].
  split; reflexivity.
Qed.

(** C6.  One call of [recordFailedNetworkCall] makes one call of
    [recordFailedAttempt] on the node's context, with the statistics of
    the attempt and the retry-attempt number it was given, at every
    level of the node; no other context changes.  The node's data stay
    as they were at level [info]; at any other level [requestData]
    holds the three plain members and, exactly when the [debugUnsafe]
    gate passes, the headers, the request body and the URL.  With a gate
    that passes [debugUnsafe] at that configured level only, a node of
    a lower level never receives those three members. *)
Theorem recordFailedNetworkCall_records_once (h : heap) (this : node_ref)
        (startTime : Z) (rc : RequestContext) (retryAttemptNumber : Z)
        (status substatus : jsval) (responseHeaders : list (string * jsval))
        (now : Z) (n : DiagnosticNodeInternal) (ctx : CosmosDiagnosticContext) :
  (forall l, allowTracing debugUnsafe l = true -> l = debugUnsafe) ->
  nodes h !! this = Some n ->
  contexts h !! diagnosticCtx n = Some ctx ->
  exists h' n',
    recordFailedNetworkCall h this startTime rc retryAttemptNumber
                            status substatus responseHeaders now = Some h' /\
    contexts h' =
      <[diagnosticCtx n :=
          recordFailedAttempt ctx
            (failedAttempt_statistics startTime rc status substatus responseHeaders now)
            retryAttemptNumber]> (contexts h) /\
    contexts h' !! diagnosticCtx n =
      Some (recordFailedAttempt ctx
              (failedAttempt_statistics startTime rc status substatus responseHeaders now)
              retryAttemptNumber) /\
    nodes h' !! this = Some n' /\
    (diagnosticLevel n = info -> data n' = data n) /\
    (diagnosticLevel n <> info ->
     obj_get (data n') "requestData" =
     Some (JObj (if allowTracing debugUnsafe (diagnosticLevel n)
                 then requestData_base rc ++ requestData_unsafe rc
                 else requestData_base rc))) /\
    (diagnosticLevel n <> debugUnsafe ->
     data n' = data n \/
     obj_get (data n') "requestData" = Some (JObj (requestData_base rc))).
Proof.
  intros Hgate Hn Hctx.
  pose proof (lookup_lt_Some _ _ _ Hn) as Lt.
  pose proof (lookup_lt_Some _ _ _ Hctx) as Lx.
  unfold recordFailedNetworkCall.
  rewrite (addData_plain h this n _ Hn). simpl.
  case_bool_decide as Hlvl.
  - (* a level other than [info] *)
    simpl. rewrite list_lookup_insert_eq by assumption. simpl.
    rewrite Hctx. simpl.
    erewrite addData_plain
      by (simpl; apply list_lookup_insert_eq; assumption).
    simpl. rewrite bool_decide_eq_true_2 by assumption.
    rewrite list_insert_insert_eq.
    eexists _, _. split; [reflexivity|]. simpl.
    split; [reflexivity|]. split; [now apply list_lookup_insert_eq|].
    split; [now apply list_lookup_insert_eq|]. simpl.
    assert (Hrd : forall o w,
               obj_get (assoc_set String.eqb o "requestData" w) "requestData"
               = Some w).
    { intros. apply (assoc_get_set_eq _ string_eqb_spec). }
    split; [contradiction|]. split.
    + intros _. rewrite Hrd.
      destruct (allowTracing debugUnsafe (diagnosticLevel n)); reflexivity.
    + intros Hnot. right. rewrite Hrd.
      destruct (allowTracing debugUnsafe (diagnosticLevel n)) eqn:G; [|reflexivity].
      apply Hgate in G. contradiction.
  - (* level [info]: [addData] does nothing *)
    assert (Hinfo : diagnosticLevel n = info).
    { destruct (decide (diagnosticLevel n = info)); [assumption|contradiction]. }
    rewrite Hn. simpl. rewrite Hctx. simpl.
    erewrite addData_plain by (simpl; exact Hn).
    rewrite bool_decide_eq_false_2 by (intros Hx; apply Hx; exact Hinfo).
    eexists _, _. split; [reflexivity|]. simpl.
    split; [reflexivity|]. split; [now apply list_lookup_insert_eq|].
    split; [exact Hn|].
    split; [reflexivity|]. split; [contradiction|]. intros _. now left.
Qed.

End DiagnosticsClaims.

(** The theorem of C4 on the sample store: node 1 added under node 0. *)
Lemma addChildNode_merges_and_links_witness :
  exists h',
    Diagnostics.addChildNode Diagnostics.sample_heap 0 1 Diagnostics.debug
                             (JS.JStr "QueryPlanLookUp")
    = Some (h', 1%nat).
Proof.
  destruct (addChildNode_merges_and_links
              (H := Diagnostics.sample_imports) Diagnostics.sample_heap 0 1
              Diagnostics.debug (JS.JStr "QueryPlanLookUp")
              (Diagnostics.sample_node Diagnostics.debugUnsafe 0)
              (Diagnostics.sample_node Diagnostics.debug 1)
              (Diagnostics.new_CosmosDiagnosticContext
                 (Imports := Diagnostics.sample_imports))
              (Diagnostics.new_CosmosDiagnosticContext
                 (Imports := Diagnostics.sample_imports))
              eq_refl eq_refl eq_refl eq_refl) as (h' & E & _).
  exists h'. exact E.
Defined.

(** The theorem of C5 on the sample store: a child of node 1 at level
    [info], which the sample gate lets pass. *)
Lemma initializeChildNode_gate_witness :
  exists h' child,
    Diagnostics.initializeChildNode Diagnostics.sample_heap 1
      Diagnostics.HTTP_REQUEST Diagnostics.info None "uuid" 5
    = Some (h', child)
    /\ Diagnostics.nodes Diagnostics.sample_heap !! child = None.
Proof.
  destruct (initializeChildNode_gate
              (H := Diagnostics.sample_imports) Diagnostics.sample_heap 1
              Diagnostics.HTTP_REQUEST Diagnostics.info None "uuid" 5
              (Diagnostics.sample_node Diagnostics.debug 1) eq_refl)
    as [_ Hpass].
  destruct (Hpass eq_refl) as (h' & child & c & n' & E & Hfresh & _).
  exists h', child. split; assumption.
Defined.

(** The theorem of C6 on the sample store: a failed call on node 1 with
    retry-attempt number 2 leaves that one attempt in its context. *)
Lemma recordFailedNetworkCall_records_once_witness :
  exists h',
    Diagnostics.recordFailedNetworkCall Diagnostics.sample_heap 1 10
      Diagnostics.sample_request 2 (JS.JNum 429) (JS.JNum 3200) [] 25
    = Some h'
    /\ Diagnostics.failedAttempts <$> (Diagnostics.contexts h' !! 1%nat)
       = Some [(2,
                Diagnostics.failedAttempt_statistics (H := Diagnostics.sample_imports)
                  10 Diagnostics.sample_request (JS.JNum 429) (JS.JNum 3200) [] 25)].
Proof.
  destruct (recordFailedNetworkCall_records_once
              (H := Diagnostics.sample_imports) Diagnostics.sample_heap 1 10
              Diagnostics.sample_request 2 (JS.JNum 429) (JS.JNum 3200) [] 25
              (Diagnostics.sample_node Diagnostics.debug 1)
              (Diagnostics.new_CosmosDiagnosticContext
                 (Imports := Diagnostics.sample_imports)))
    as (h' & n' & E & _ & Hctx & _).
  - intros []; vm_compute; congruence.
  - reflexivity.
  - reflexivity.
  - exists h'. split; [exact E|].
    exact (f_equal (fmap Diagnostics.failedAttempts) Hctx).
Defined.

(** ** The GROUP BY stage *)

Section GroupByFacts.
Local Open Scope nat_scope.
Import JS GroupBy.
Import ExecutionContext(JsError, Response, name, code, fetchedResults, message,
                        result, headers, Build_JsError, Build_Response).
Context `{Imports}.
Context {Args S : Type} `{EC : !ExecutionContext.ExecutionContext Args Headers Row S}.

Lemma array_pop_push {A : Type} (a : list A) (x : A) :
  array_pop (array_push a x) = (Some x, a).
Proof.
  unfold array_pop, array_push. now rewrite last_snoc, removelast_last.
Qed.

Lemma array_pop_nil {A : Type} : array_pop (@nil A) = (None, []).
Proof. reflexivity. Qed.

Lemma push_group_results_app (g : list (string * Grouping)) (arr : list GroupResult) :
  push_group_results g arr = arr ++ map (fun kv => group_result (snd kv)) g.
Proof.
  unfold push_group_results. revert arr.
  induction g as [|kv g IH]; intros arr; simpl.
  - now rewrite app_nil_r.
  - rewrite IH. unfold array_push. now rewrite <- app_assoc.
Qed.

(** The loop over an inner context that delivers [rs]: with fuel for
    every pull it ends, having processed the rows in order and merged
    the headers of every response. *)
Lemma drain_delivers args q s rs s' :
  delivers args s rs s' ->
  forall g g' fuel hdr,
    process_rows q g (rows_of rs) = (g', None) ->
    length rs <= fuel ->
    drain fuel args q s g hdr = Some (s', g', merged_headers hdr rs, None).
Proof.
  induction 1 as [s Hend | s s1 s' r rs Hmore Hnext Hdel IH];
    intros g g' fuel hdr Hproc Hfuel.
  - simpl in Hproc. injection Hproc as <-.
    destruct fuel; simpl; rewrite Hend; reflexivity.
  - destruct fuel as [|fuel]; [simpl in Hfuel; lia|].
    simpl. rewrite Hmore, Hnext.
    unfold rows_of in Hproc. simpl in Hproc.
    destruct (result r) as [row|]; simpl in Hproc.
    + destruct (process_row q g row) as [g1 [e|]]; [discriminate|].
      apply IH; [exact Hproc|simpl in Hfuel; lia].
    + apply IH; [exact Hproc|simpl in Hfuel; lia].
Qed.

(** The loop over an inner context that throws after [rs]. *)
Lemma drain_throws args q s rs err s' :
  throws_after args s rs err s' ->
  forall g g' fuel hdr,
    process_rows q g (rows_of rs) = (g', None) ->
    length rs < fuel ->
    drain fuel args q s g hdr = Some (s', g', merged_headers hdr rs, Some err).
Proof.
  induction 1 as [s s' err Hmore Hnext | s s1 s' r rs err Hmore Hnext Hthr IH];
    intros g g' fuel hdr Hproc Hfuel.
  - simpl in Hproc. injection Hproc as <-.
    destruct fuel as [|fuel]; [simpl in Hfuel; lia|].
    simpl. rewrite Hmore, Hnext. reflexivity.
  - destruct fuel as [|fuel]; [simpl in Hfuel; lia|].
    simpl. rewrite Hmore, Hnext.
    unfold rows_of in Hproc. simpl in Hproc.
    destruct (result r) as [row|]; simpl in Hproc.
    + destruct (process_row q g row) as [g1 [e|]]; [discriminate|].
      apply IH; [exact Hproc|simpl in Hfuel; lia].
    + apply IH; [exact Hproc|simpl in Hfuel; lia].
Qed.

End GroupByFacts.

Section GroupByRows.
Local Open Scope nat_scope.
Import JS GroupBy.
Import ExecutionContext(JsError, Response, name, code, fetchedResults, message,
                        result, headers, Build_JsError, Build_Response).
Context `{Imports}.

(** [extractAggregateResult] returns for every argument but [null] and
    [undefined], for which it throws. *)
Lemma extractAggregateResult_present (v : jsval) :
  nullish v = false -> extractAggregateResult v = inr (aggregateResultOf v).
Proof. intros Hv. unfold extractAggregateResult. now rewrite Hv. Qed.

Lemma extractAggregateResult_nullish (v : jsval) :
  nullish v = true -> extractAggregateResult v = inl TypeError_extract.
Proof. intros Hv. unfold extractAggregateResult. now rewrite Hv. Qed.

(** The value the seen-group branch passes to it is never one of the
    two. *)
Lemma extractAggregateResult_effective (v : jsval) :
  extractAggregateResult (if truthy v then v else null_wrapper)
  = inr (aggregateResultOf (if truthy v then v else null_wrapper)).
Proof.
  apply extractAggregateResult_present.
  destruct (truthy v) eqn:Hv; [|reflexivity].
  destruct v; try reflexivity; discriminate.
Qed.

Lemma feed_existing_cons (aggs : Grouping) payload key keys :
  feed_existing aggs payload (key :: keys)
  = match assoc_get String.eqb aggs key with
    | Some a =>
        feed_existing
          (assoc_set String.eqb aggs key (aggregate a (fed_existing payload key)))
          payload keys
    | None => (aggs, Some TypeError_aggregate)
    end.
Proof.
  cbn [feed_existing]. cbv zeta.
  now rewrite extractAggregateResult_effective.
Qed.










End GroupByRows.

Section GroupByGroups.
Local Open Scope nat_scope.
Import JS GroupBy.
Import ExecutionContext(JsError, Response, name, code, fetchedResults, message,
                        result, headers, Build_JsError, Build_Response).
Context `{Imports}.








End GroupByGroups.

Section GroupByStage.
Local Open Scope nat_scope.
Import JS GroupBy.
Import ExecutionContext(JsError, Response, name, code, fetchedResults, message,
                        result, headers, Build_JsError, Build_Response).
Context `{Imports}.
Context {Args S : Type} `{EC : !ExecutionContext.ExecutionContext Args Headers Row S}.

Lemma delivers_exhausted args s rs s' :
  delivers args s rs s' -> ExecutionContext.hasMoreResults s' = false.
Proof. induction 1; assumption. Qed.

Lemma omap_id_Some {A : Type} (l : list A) : omap id (map Some l) = l.
Proof. induction l as [|x l IH]; [reflexivity|]. simpl. f_equal. exact IH. Qed.

(** With the inner context exhausted, the caller's loop pops the buffer
    from its end until it is empty. *)
Lemma pull_all_buffer fuel args inner q g c :
  ExecutionContext.hasMoreResults inner = false ->
  forall buf n,
    length buf <= n ->
    pull_all n fuel args
             {| executionContext := inner; queryInfo := q; groupings := g;
                aggregateResultArray := buf; completed := c |}
    = Some (map Some (rev buf),
            {| executionContext := inner; queryInfo := q; groupings := g;
               aggregateResultArray := []; completed := c |},
            None).
Proof.
  intros Hend buf. induction buf as [|x buf IH] using rev_ind; intros n Hn.
  - destruct n; simpl; unfold hasMoreResults; simpl; rewrite Hend; reflexivity.
  - rewrite length_app in Hn. simpl in Hn.
    destruct n as [|n]; [lia|].
    assert (Hlen : (0 <? length (buf ++ [x])) = true).
    { apply Nat.ltb_lt. rewrite length_app. simpl. lia. }
    simpl. unfold hasMoreResults, nextItem. simpl.
    rewrite Hlen, Bool.orb_true_r.
    rewrite last_snoc, removelast_last, IH by lia.
    rewrite rev_app_distr. reflexivity.
Qed.

(** The caller's loop over a new stage whose inner context delivers
    [rs]: when the rows are processed without a throw into the groups
    [g], the loop ends, and the rows it returned are the results of the
    groups, last group first. *)
Lemma pull_all_new args q s rs s' g :
  delivers args s rs s' ->
  process_rows q [] (rows_of rs) = (g, None) ->
  forall n fuel,
    length rs <= fuel -> length g < n ->
    exists out this',
      pull_all n fuel args (new_GroupByEndpointComponent s q)
      = Some (out, this', None) /\
      omap id out = rev (map (fun kv => group_result (snd kv)) g) /\
      groupings this' = g /\
      hasMoreResults this' = false.
Proof.
  intros Hdel Hproc n fuel Hfuel Hn.
  pose proof (delivers_exhausted _ _ _ _ Hdel) as Hend.
  destruct n as [|n]; [lia|].
  inversion Hdel as [s0 Hnone | s0 s1 s0' r rs' Hmore Hnext Hdel']; subst.
  - (* nothing to pull *)
    simpl in Hproc. injection Hproc as <-.
    eexists _, _. simpl. unfold hasMoreResults. simpl. rewrite Hnone. simpl.
    split; [reflexivity|]. unfold hasMoreResults. simpl. rewrite Hnone. auto.
  - simpl. unfold hasMoreResults at 1. simpl. rewrite Hmore. simpl.
    unfold nextItem. simpl.
    rewrite (drain_delivers args q s (r :: rs') s' Hdel [] g fuel getInitialHeader
               Hproc Hfuel).
    rewrite push_group_results_app. simpl.
    destruct g as [|kv g _] using rev_ind.
    + simpl.
      rewrite (pull_all_buffer fuel args s' q [] true Hend [] n) by (simpl; lia).
      eexists _, _. split; [reflexivity|]. simpl.
      unfold hasMoreResults. simpl. rewrite Hend. auto.
    + rewrite map_app. simpl.
      rewrite last_snoc, removelast_last.
      rewrite length_app in Hn. simpl in Hn.
      rewrite (pull_all_buffer fuel args s' q (g ++ [kv]) true Hend _ n)
        by (rewrite length_map; lia).
      eexists _, _. split; [reflexivity|]. simpl.
      rewrite omap_id_Some, rev_app_distr. simpl.
      unfold hasMoreResults. simpl. rewrite Hend. auto.
Qed.

End GroupByStage.


Section GroupByClaims.
Local Open Scope nat_scope.
Import JS GroupBy.
Import ExecutionContext(JsError, Response, name, code, fetchedResults, message,
                        result, headers, Build_JsError, Build_Response).
Context `{Imports}.
Context {Args S : Type} `{EC : !ExecutionContext.ExecutionContext Args Headers Row S}.


(** C7.  [hasMoreResults()] is true exactly when the inner context
    reports more results or the buffer is not empty.  It is true for a
    new stage over an inner context that has more results, and it is
    false exactly when the inner context has no more results and the
    buffer is empty. *)
Theorem hasMoreResults_iff (this : GroupByEndpointComponent S) :
  (hasMoreResults this = true <->
   ExecutionContext.hasMoreResults (executionContext this) = true
   \/ aggregateResultArray this <> []) /\
  (forall inner q,
      ExecutionContext.hasMoreResults inner = true ->
      hasMoreResults (new_GroupByEndpointComponent inner q) = true) /\
  (hasMoreResults this = false <->
   ExecutionContext.hasMoreResults (executionContext this) = false
   /\ aggregateResultArray this = []).
Proof.
  unfold hasMoreResults. split; [|split].
  - rewrite Bool.orb_true_iff, Nat.ltb_lt.
    destruct (aggregateResultArray this); simpl; split;
      intros [?|?]; auto; try lia; try congruence.
  - intros inner q Hmore. simpl. now rewrite Hmore.
  - rewrite Bool.orb_false_iff, Nat.ltb_ge.
    destruct (aggregateResultArray this); simpl; split;
      intros [? ?]; split; auto; try lia; congruence.
Qed.

(** C8.  When the inner context throws [err] during the loop, after
    responses whose rows were processed without a throw, [nextItem]
    throws: the value thrown is [err] with [fetchedResults] set to
    [undefined] when the code of [err] is the RU-cap code, and [err]
    itself otherwise.  The inner context is left in the state of the
    pull that threw, the stage is not completed and its buffer is
    empty. *)
Theorem nextItem_rethrows args (this : GroupByEndpointComponent S) rs err inner' g' :
  aggregateResultArray this = [] ->
  completed this = false ->
  throws_after args (executionContext this) rs err inner' ->
  process_rows (queryInfo this) (groupings this) (rows_of rs) = (g', None) ->
  forall fuel,
    length rs < fuel ->
    exists this',
      nextItem fuel args this = Some (this', inl (catch_clause err)) /\
      executionContext this' = inner' /\
      groupings this' = g' /\
      aggregateResultArray this' = [] /\
      completed this' = false /\
      (strict_equals (code err) (JStr RUCapPerOperationExceededErrorCode) = true ->
       catch_clause err =
       {| name := name err; code := code err; fetchedResults := JUndefined;
          message := message err |}) /\
      (strict_equals (code err) (JStr RUCapPerOperationExceededErrorCode) = false ->
       catch_clause err = err).
Proof.
  intros Hbuf Hcompl Hthr Hproc fuel Hfuel.
  unfold nextItem. rewrite Hbuf, Hcompl. simpl.
  rewrite (drain_throws args _ _ rs err inner' Hthr _ g' fuel getInitialHeader
             Hproc Hfuel).
  eexists. split; [reflexivity|]. simpl.
  repeat split; unfold catch_clause; intros ->; reflexivity.
Qed.


(** C10.  Once [completed] is set and the buffer is empty, [nextItem]
    returns an [undefined] result with the initial headers and leaves
    the stage, the inner context included, exactly as it was; this holds
    with no fuel at all, so the inner context is not pulled. *)
Theorem nextItem_exhausted_stable fuel args (this : GroupByEndpointComponent S) :
  completed this = true ->
  aggregateResultArray this = [] ->
  nextItem fuel args this
  = Some (this, inr {| result := None; headers := getInitialHeader |}).
Proof.
  intros Hcompl Hbuf. unfold nextItem. now rewrite Hbuf, Hcompl.
Qed.

End GroupByClaims.

(** ** The stage on concrete inputs *)

Section Scripted.
Import JS GroupBy.
Import ExecutionContext(JsError, Response, result, headers).
Existing Instance sample_imports.
Existing Instance scripted.

(** A script of responses delivers them and ends empty. *)
Lemma delivers_scripted (rs : list (Response Z Row)) :
  delivers tt (map inr rs : script) rs [].
Proof.
  induction rs as [|r rs IH]; simpl.
  - exact (delivers_nil (H := sample_imports) (EC := scripted) tt [] eq_refl).
  - exact (delivers_cons (H := sample_imports) (EC := scripted) tt
             (inr r :: map inr rs) (map inr rs) [] r rs eq_refl eq_refl IH).
Qed.

(** A script of responses followed by an error throws it. *)
Lemma throws_scripted (rs : list (Response Z Row)) (err : JsError) (rest : script) :
  throws_after tt (map inr rs ++ inl err :: rest : script) rs err rest.
Proof.
  induction rs as [|r rs IH]; simpl.
  - exact (throws_now (H := sample_imports) (EC := scripted) tt
             (inl err :: rest) rest err eq_refl eq_refl).
  - exact (throws_later (H := sample_imports) (EC := scripted) tt
             (inr r :: map inr rs ++ inl err :: rest)
             (map inr rs ++ inl err :: rest) rest r rs err eq_refl eq_refl IH).
Qed.

(** Rows that all have the same member names have known keys. *)
Lemma keys_known_uniform (rows : list Row) (ks : list string) :
  (forall row, row ∈ rows -> Object_keys (payload row) = ks) ->
  keys_known rows.
Proof.
  intros Hu row first key Hrow Hfirst Hkey.
  apply find_some in Hfirst as [Hin _]. apply list_elem_of_In in Hin.
  rewrite (Hu _ Hin). now rewrite <- (Hu _ Hrow).
Qed.
End Scripted.



(** With the aggregate type [Sum] for [k] the row that opens the group
    has [extractAggregateResult] applied to [null] itself, again without
    the null wrapper: the call throws, and the group stays in the stage
    with an aggregator for [k] that was fed nothing. *)
Lemma process_row_new_group_typed_throws :
  GroupBy.process_row (H := GroupBy.recording_imports)
    {| GroupBy.groupByAliasToAggregateType := [("k"%string, JS.JStr "Sum")] |}
    [] GroupBy.null_row
  = ([("__empty__"%string, [("k"%string, [])])], Some GroupBy.TypeError_extract).
Proof. reflexivity. Qed.

(** The same at the level of the stage: over the one row [{k: null}]
    with the aggregate type [Sum] for [k], whose member names are known,
    the first pull throws the [TypeError]; the stage is not completed,
    and the group is in it with an aggregator that was fed nothing. *)
Lemma nextItem_null_first_row_throws :
  GroupBy.keys_known (H := GroupBy.sample_imports) [GroupBy.null_row]
  /\ (fun r => (snd r, GroupBy.completed (fst r), GroupBy.groupings (fst r)))
       <$> GroupBy.nextItem (H := GroupBy.sample_imports) (EC := GroupBy.scripted)
             5 tt
             (GroupBy.new_GroupByEndpointComponent
                (GroupBy.script_of_pages [[GroupBy.null_row]])
                {| GroupBy.groupByAliasToAggregateType :=
                     [("k"%string, JS.JStr "Sum")] |})
     = Some (inl GroupBy.TypeError_extract, false,
             [("__empty__"%string, [("k"%string, GroupBy.SumAggregator None)])]).
Proof.
  split.
  - apply (keys_known_uniform _ ["k"%string]).
    intros row Hrow. apply list_elem_of_singleton in Hrow. now subst row.
  - vm_compute. reflexivity.
Qed.

(** A caller that goes on after that throw gets a row without the
    members the seeding did not reach: over the one row
    [{sum: null, k: "B"}] the first pull throws at [sum], and the second
    pull returns a row with [sum] alone, and completes the stage. *)
Lemma nextItem_after_seed_throw_emits_partial :
  snd <$> GroupBy.nextItem (H := GroupBy.sample_imports) (EC := GroupBy.scripted)
            5 tt
            (GroupBy.new_GroupByEndpointComponent
               (GroupBy.script_of_pages [[GroupBy.null_sum_row "B"]])
               GroupBy.sample_query)
  = Some (inl GroupBy.TypeError_extract)
  /\ (GroupBy.nextItem (H := GroupBy.sample_imports) (EC := GroupBy.scripted)
        5 tt
        (GroupBy.new_GroupByEndpointComponent
           (GroupBy.script_of_pages [[GroupBy.null_sum_row "B"]])
           GroupBy.sample_query)
      ≫= fun r =>
           (fun r' => (snd r', GroupBy.completed (fst r')))
             <$> GroupBy.nextItem (H := GroupBy.sample_imports)
                   (EC := GroupBy.scripted) 5 tt (fst r))
     = Some (inr {| ExecutionContext.result :=
                      Some [("sum"%string, JS.JUndefined)];
                    ExecutionContext.headers := 1 |},
             true).
Proof. split; vm_compute; reflexivity. Qed.


(** The theorem of C7 on a new stage over a page of one row. *)
Lemma hasMoreResults_iff_witness :
  GroupBy.hasMoreResults (H := GroupBy.sample_imports) (EC := GroupBy.scripted)
    (GroupBy.new_GroupByEndpointComponent
       (GroupBy.script_of_pages [[GroupBy.sample_row "A" 3]])
       GroupBy.sample_query)
  = true.
Proof.
  apply (proj1 (proj2 (hasMoreResults_iff
                         (H := GroupBy.sample_imports) (EC := GroupBy.scripted)
                         (GroupBy.new_GroupByEndpointComponent [] GroupBy.sample_query)))).
  reflexivity.
Defined.

(** The theorem of C8 on a page of one row followed by an RU-cap
    error with a partial result list. *)
Lemma nextItem_rethrows_witness :
  exists this',
    GroupBy.nextItem (H := GroupBy.sample_imports) (EC := GroupBy.scripted) 3 tt
      (GroupBy.new_GroupByEndpointComponent
         (map inr (GroupBy.responses_of_pages [[GroupBy.sample_row "A" 3]])
          ++ [inl GroupBy.sample_ru_error])
         GroupBy.sample_query)
    = Some (this',
            inl {| ExecutionContext.name := "Error";
                   ExecutionContext.code := JS.JStr "OPERATION_RU_LIMIT_EXCEEDED";
                   ExecutionContext.fetchedResults := JS.JUndefined;
                   ExecutionContext.message := "RU cap exceeded" |}).
Proof.
  destruct (nextItem_rethrows
              (H := GroupBy.sample_imports) (EC := GroupBy.scripted) tt
              (GroupBy.new_GroupByEndpointComponent
                 (map inr (GroupBy.responses_of_pages [[GroupBy.sample_row "A" 3]])
                  ++ [inl GroupBy.sample_ru_error])
                 GroupBy.sample_query)
              (GroupBy.responses_of_pages [[GroupBy.sample_row "A" 3]])
              GroupBy.sample_ru_error [] _
              eq_refl eq_refl
              (throws_scripted _ GroupBy.sample_ru_error [])
              eq_refl 3%nat ltac:(simpl; lia))
    as (this' & E & _).
  exists this'. exact E.
Defined.


(** The theorem of C10 on a completed stage with an empty buffer, with
    no fuel. *)
Lemma nextItem_exhausted_stable_witness :
  GroupBy.nextItem (H := GroupBy.sample_imports) (EC := GroupBy.scripted) 0 tt
    {| GroupBy.executionContext := [];
       GroupBy.queryInfo := GroupBy.sample_query;
       GroupBy.groupings := [];
       GroupBy.aggregateResultArray := [];
       GroupBy.completed := true |}
  = Some ({| GroupBy.executionContext := [];
             GroupBy.queryInfo := GroupBy.sample_query;
             GroupBy.groupings := [];
             GroupBy.aggregateResultArray := [];
             GroupBy.completed := true |},
          inr {| ExecutionContext.result := None;
                 ExecutionContext.headers := 0 |}).
Proof.
  apply (nextItem_exhausted_stable
           (H := GroupBy.sample_imports) (EC := GroupBy.scripted)); reflexivity.
Defined.

(** * Further properties *)

(** ** Partition key extraction *)

Section PartitionKeyMore.
Import JS PartitionKey.
Context `{Imports}.

Lemma descend_undefined (pathParts : list string) :
  descend pathParts JUndefined = JUndefined.
Proof. destruct pathParts; reflexivity. Qed.

(** Walking a list of segments is walking a first part of it and then the
    rest from where that ended. *)
Lemma descend_app (p1 p2 : list string) (doc : jsval) :
  descend (p1 ++ p2) doc = descend p2 (descend p1 doc).
Proof.
  revert doc. induction p1 as [|part p1 IH]; intros doc; simpl; [reflexivity|].
  destruct (_ && _); [apply IH|]. now rewrite descend_undefined.
Qed.

(** X1.  A segment missing at any depth gives the none literal: when the
    segments of [path] up to some point lead to [undefined], whatever
    segments follow, [extractPartitionKey] returns the none literal
    (the null literal not being [undefined]). *)
Theorem extractPartitionKey_missing_at_any_depth (path : string)
        (p1 p2 : list string) (doc : jsval) :
  NullPartitionKeyLiteral <> JUndefined ->
  parsePath path = p1 ++ p2 ->
  descend p1 doc = JUndefined ->
  extractPartitionKey path doc = NonePartitionKeyLiteral.
Proof.
  intros Hnull Hparse Hmiss. apply extractPartitionKey_missing; [assumption|].
  now rewrite Hparse, descend_app, Hmiss, descend_undefined.
Qed.

(** X2.  A scalar stored under a member is the key extracted by a path of
    that one segment, whatever the object held before under that or any
    other name. *)
Theorem extractPartitionKey_after_set (path key : string)
        (fields : list (string * jsval)) (v : jsval) :
  parsePath path = [key] ->
  scalar v ->
  extractPartitionKey path (JObj (obj_set fields key v)) = v.
Proof.
  intros Hparse Hs.
  assert (Hd : descend (parsePath path) (JObj (obj_set fields key v)) = v).
  { rewrite Hparse. simpl. unfold obj_get, obj_set.
    rewrite (assoc_get_set_eq String.eqb string_eqb_spec). reflexivity. }
  rewrite extractPartitionKey_scalar; rewrite Hd; [reflexivity|assumption].
Qed.

(** The [forEach] loop keeps, in order, the keys that are not
    [undefined]. *)
Lemma forEach_path_filter doc ps acc :
  forEach_path doc ps acc
  = acc ++ List.filter (fun v => negb (strict_equals v JUndefined))
                       (map (fun p => extractPartitionKey p doc) ps).
Proof.
  revert acc. induction ps as [|p ps IH]; intros acc; simpl.
  - now rewrite app_nil_r.
  - destruct (strict_equals (extractPartitionKey p doc) JUndefined); simpl.
    + apply IH.
    + rewrite IH. now rewrite <- app_assoc.
Qed.

(** X3.  For a definition of several paths, or of one path other than
    the default path, that is not a system key, the result is the list of
    the keys of the paths whose value has a supported type, in the order
    of the paths; a path with an unsupported value contributes nothing.
    So no entry of the result is [undefined], and the result is never
    longer than the list of paths. *)
Theorem extractPartitionKeys_keeps_supported (doc : jsval)
        (def : PartitionKeyDefinition) (ps : list string) :
  paths def = Some ps -> ps <> [] ->
  systemKey def <> Some true ->
  ps <> [DEFAULT_PARTITION_KEY_PATH] ->
  exists keys,
    extractPartitionKeys doc (Some def) = Some keys /\
    keys = List.filter (fun v => negb (strict_equals v JUndefined))
                       (map (fun p => extractPartitionKey p doc) ps) /\
    (forall v, v ∈ keys -> v <> JUndefined) /\
    (length keys <= length ps)%nat.
Proof.
  intros Hp Hne Hsk Hdef. unfold extractPartitionKeys. rewrite Hp.
  assert (H0 : (0 <? length ps)%nat = true).
  { destruct ps; [congruence|reflexivity]. }
  assert (Hbranch : (length ps =? 1)%nat
                    && bool_decide (ps !! 0%nat = Some DEFAULT_PARTITION_KEY_PATH)
                    = false).
  { destruct ps as [|p [|p' ps]]; simpl; try reflexivity.
    apply bool_decide_eq_false_2. intros E. apply Hdef. congruence. }
  rewrite H0, Hbranch, bool_decide_eq_false_2 by assumption.
  rewrite forEach_path_filter.
  eexists. split; [reflexivity|].
  change ([] ++ ?x) with x. split; [reflexivity|]. split.
  - intros v Hv. apply list_elem_of_In, filter_In in Hv as [_ Hv].
    intros ->. discriminate.
  - etransitivity; [apply filter_length_le|]. now rewrite length_map.
Qed.

(** X4.  [undefined] is the result for a malformed definition and for no
    other: whatever the document holds, a well-formed definition gets a
    list. *)
Theorem extractPartitionKeys_undefined_exactly_malformed (doc : jsval)
        (def : option PartitionKeyDefinition) :
  extractPartitionKeys doc def = None <-> ~ well_formed def.
Proof. apply extractPartitionKeys_undefined_iff. Qed.

(** X5.  On a document that has none of the paths of a well-formed
    definition, [extractPartitionKeys] returns what
    [undefinedPartitionKey] returns for the definition: the empty list
    for a system key, and otherwise one none literal per path (the two
    literals not being [undefined]). *)
Theorem extractPartitionKeys_all_missing (doc : jsval)
        (def : PartitionKeyDefinition) (ps : list string) :
  NullPartitionKeyLiteral <> JUndefined ->
  NonePartitionKeyLiteral <> JUndefined ->
  paths def = Some ps -> ps <> [] ->
  (forall p, p ∈ ps -> descend (parsePath p) doc = JUndefined) ->
  extractPartitionKeys doc (Some def) = undefinedPartitionKey def /\
  (systemKey def <> Some true ->
   undefinedPartitionKey def = Some (replicate (length ps) NonePartitionKeyLiteral)).
Proof.
  intros Hnull Hnone Hp Hne Hmiss.
  assert (Hrep : map (fun _ : string => NonePartitionKeyLiteral) ps
                 = replicate (length ps) NonePartitionKeyLiteral).
  { clear. induction ps; simpl; congruence. }
  assert (Hext : forall p, p ∈ ps -> extractPartitionKey p doc = NonePartitionKeyLiteral).
  { intros p Hin. apply extractPartitionKey_missing; auto. }
  assert (H0 : (0 <? length ps)%nat = true).
  { destruct ps; [congruence|reflexivity]. }
  split.
  - unfold extractPartitionKeys, undefinedPartitionKey. rewrite Hp, H0.
    case_bool_decide; [reflexivity|].
    change (map (fun _ : string => NonePartitionKeyLiteral) <$> Some ps)
      with (Some (map (fun _ : string => NonePartitionKeyLiteral) ps)).
    destruct (_ && _) eqn:Hb.
    + apply andb_true_iff in Hb as [Hl Hd].
      apply Nat.eqb_eq in Hl. destruct ps as [|p [|p' ps]]; try discriminate.
      apply bool_decide_eq_true_1 in Hd. injection Hd as ->.
      rewrite Hext by apply list_elem_of_here. reflexivity.
    + f_equal. rewrite forEach_path_all_supported.
      * change ([] ++ ?x) with x. apply map_ext_in.
        intros q Hq. apply Hext. now apply list_elem_of_In.
      * intros q Hq. rewrite Hext by now apply list_elem_of_In. assumption.
  - intros Hsk. unfold undefinedPartitionKey.
    rewrite bool_decide_eq_false_2 by assumption. rewrite Hp. simpl.
    now rewrite Hrep.
Qed.

End PartitionKeyMore.

Lemma extractPartitionKey_missing_at_any_depth_witness :
  PartitionKey.extractPartitionKey (H := PartitionKey.sample_imports)
    "/a/b/c" (JS.JObj [("a"%string, JS.JNum 1)])
  = JS.JObj [].
Proof.
  apply (extractPartitionKey_missing_at_any_depth
           (H := PartitionKey.sample_imports) "/a/b/c"
           ["a"; "b"]%string ["c"%string]
           (JS.JObj [("a"%string, JS.JNum 1)])).
  - discriminate.
  - reflexivity.
  - reflexivity.
Defined.

Lemma extractPartitionKey_after_set_witness :
  PartitionKey.extractPartitionKey (H := PartitionKey.sample_imports)
    "/id" (JS.JObj (JS.obj_set [("id"%string, JS.JNum 1)] "id" (JS.JStr "k")))
  = JS.JStr "k".
Proof.
  apply (extractPartitionKey_after_set (H := PartitionKey.sample_imports)
           "/id" "id" [("id"%string, JS.JNum 1)] (JS.JStr "k")).
  - reflexivity.
  - exact I.
Defined.

Lemma extractPartitionKeys_keeps_supported_witness :
  PartitionKey.extractPartitionKeys (H := PartitionKey.sample_imports)
    (JS.JObj [("a"%string, JS.JArr [JS.JNum 1]); ("b"%string, JS.JStr "x")])
    (Some {| PartitionKey.paths := Some ["/a"; "/b"]%string;
             PartitionKey.systemKey := None |})
  = Some [JS.JStr "x"].
Proof.
  destruct (extractPartitionKeys_keeps_supported
              (H := PartitionKey.sample_imports)
              (JS.JObj [("a"%string, JS.JArr [JS.JNum 1]); ("b"%string, JS.JStr "x")])
              {| PartitionKey.paths := Some ["/a"; "/b"]%string;
                 PartitionKey.systemKey := None |}
              ["/a"; "/b"]%string eq_refl
              ltac:(discriminate) ltac:(discriminate) ltac:(discriminate))
    as (keys & E & -> & _).
  exact E.
Defined.

Lemma extractPartitionKeys_all_missing_witness :
  PartitionKey.extractPartitionKeys (H := PartitionKey.sample_imports)
    (JS.JObj [])
    (Some {| PartitionKey.paths := Some ["/a"; "/b"]%string;
             PartitionKey.systemKey := None |})
  = Some [JS.JObj []; JS.JObj []].
Proof.
  destruct (extractPartitionKeys_all_missing
              (H := PartitionKey.sample_imports) (JS.JObj [])
              {| PartitionKey.paths := Some ["/a"; "/b"]%string;
                 PartitionKey.systemKey := None |}
              ["/a"; "/b"]%string) as [E U].
  - discriminate.
  - discriminate.
  - reflexivity.
  - discriminate.
  - intros p Hp.
    repeat (apply elem_of_cons in Hp as [->|Hp]; [reflexivity|]).
    now apply elem_of_nil in Hp.
  - rewrite E. apply U. discriminate.
Defined.

(** ** Diagnostic nodes *)

Section AssignFacts.
Import JS.
Context {K V : Type} (eqb : K -> K -> bool).
Hypothesis eqb_spec : forall x y, eqb x y = true <-> x = y.


End AssignFacts.

Section DiagnosticsMore.
Import JS Diagnostics DiagnosticsRest.
Context `{ContextImports}.


(** The messages logged on a node: the elements of [data.log] when it is
    an array. *)
Lemma addLog_appends (h : heap) (this : node_ref) (msg : string)
      (n : DiagnosticNodeInternal) (l : list jsval) :
  nodes h !! this = Some n ->
  (obj_get (data n) "log" = None /\ l = []
   \/ (exists v, obj_get (data n) "log" = Some v /\ truthy v = false) /\ l = []
   \/ obj_get (data n) "log" = Some (JArr l)) ->
  addLog h this msg
  = Some (set_nodes h
            (<[this := with_data n (obj_set (data n) "log" (JArr (l ++ [JStr msg])))]>
               (nodes h))).
Proof.
  intros Hn Hlog. unfold addLog. rewrite Hn. simpl.
  destruct Hlog as [[-> ->]|[[(v & -> & Hv) ->]| ->]]; simpl.
  - reflexivity.
  - rewrite Hv. reflexivity.
  - reflexivity.
Qed.

(** X7.  Messages accumulate in order: on a node whose data have no
    [log], or a falsy one, a sequence of [addLog] calls leaves in [log]
    the array of the messages in the order of the calls, and changes no
    other member of the data. *)
Theorem addLog_accumulates (msgs : list string) :
  forall (h : heap) (this : node_ref) (n : DiagnosticNodeInternal),
    nodes h !! this = Some n ->
    (obj_get (data n) "log" = None
     \/ exists v, obj_get (data n) "log" = Some v /\ truthy v = false) ->
    msgs <> [] ->
    exists h' n',
      run_calls h (map (Call_addLog this) msgs) = Some h' /\
      nodes h' !! this = Some n' /\
      obj_get (data n') "log" = Some (JArr (map JStr msgs)) /\
      (forall k, k <> "log"%string -> obj_get (data n') k = obj_get (data n) k).
Proof.
  assert (Hgen : forall (msgs : list string) (h : heap) this n l,
             nodes h !! this = Some n ->
             obj_get (data n) "log" = Some (JArr l) ->
             exists h' n',
               run_calls h (map (Call_addLog this) msgs) = Some h' /\
               nodes h' !! this = Some n' /\
               obj_get (data n') "log" = Some (JArr (l ++ map JStr msgs)) /\
               (forall k, k <> "log"%string ->
                          obj_get (data n') k = obj_get (data n) k)).
  { clear msgs. induction msgs as [|m msgs IH]; intros h this n l Hn Hlog; simpl.
    - exists h, n. rewrite app_nil_r. auto.
    - rewrite (addLog_appends h this m n l Hn) by auto. simpl.
      pose proof (lookup_lt_Some _ _ _ Hn) as Lt.
      destruct (IH (set_nodes h
                      (<[this := with_data n
                                   (obj_set (data n) "log" (JArr (l ++ [JStr m])))]>
                         (nodes h)))
                   this
                   (with_data n (obj_set (data n) "log" (JArr (l ++ [JStr m]))))
                   (l ++ [JStr m]))
        as (h' & n' & E & Hn' & Hl & Hk).
      + simpl. now apply list_lookup_insert_eq.
      + simpl. apply obj_get_set_eq.
      + exists h', n'. split; [exact E|]. split; [exact Hn'|].
        split; [now rewrite Hl, <- app_assoc|].
        intros k Hne. rewrite Hk by assumption. simpl.
        now apply obj_get_set_ne. }
  intros h this n Hn Hlog Hne.
  destruct msgs as [|m msgs]; [congruence|]. simpl.
  pose proof (lookup_lt_Some _ _ _ Hn) as Lt.
  rewrite (addLog_appends h this m n [] Hn).
  2:{ destruct Hlog as [Hl|Hl]; [left|right; left]; auto. }
  simpl.
  destruct (Hgen msgs
              (set_nodes h
                 (<[this := with_data n
                              (obj_set (data n) "log" (JArr ([] ++ [JStr m])))]>
                    (nodes h)))
              this
              (with_data n (obj_set (data n) "log" (JArr ([] ++ [JStr m]))))
              [JStr m])
    as (h' & n' & E & Hn' & Hl & Hk).
  - simpl. now apply list_lookup_insert_eq.
  - simpl. apply obj_get_set_eq.
  - exists h', n'. split; [exact E|]. split; [exact Hn'|].
    split; [exact Hl|].
    intros k Hk'. rewrite Hk by assumption. simpl.
    now apply obj_get_set_ne.
Qed.

End DiagnosticsMore.

Section DiagnosticsFrame.
Import JS Diagnostics DiagnosticsRest.
Context `{ContextImports}.

Lemma keeps_node_refl (n : DiagnosticNodeInternal) : keeps_node n n.
Proof. unfold keeps_node. repeat split; reflexivity. Qed.

Lemma keeps_node_trans (n1 n2 n3 : DiagnosticNodeInternal) :
  keeps_node n1 n2 -> keeps_node n2 n3 -> keeps_node n1 n3.
Proof.
  unfold keeps_node. intros (A1 & A2 & A3 & A4 & A5 & A6) (B1 & B2 & B3 & B4 & B5 & B6).
  repeat split; try congruence. now transitivity (children n2).
Qed.

Lemma updates_node_refl (h : heap) this n :
  nodes h !! this = Some n -> updates_node h this h.
Proof.
  intros Hn. exists n, n. split; [assumption|].
  split; [now rewrite list_insert_id|].
  split; [apply keeps_node_refl|]. auto.
Qed.

Lemma updates_node_trans (h h1 h2 : heap) this :
  updates_node h this h1 -> updates_node h1 this h2 -> updates_node h this h2.
Proof.
  intros (n & n1 & Hn & E1 & K1 & C1 & P1 & L1) (m & n2 & Hm & E2 & K2 & C2 & P2 & L2).
  pose proof (lookup_lt_Some _ _ _ Hn) as Lt.
  rewrite E1, list_lookup_insert_eq in Hm by assumption. injection Hm as <-.
  exists n, n2. split; [assumption|].
  split; [now rewrite E2, E1, list_insert_insert_eq|].
  split; [now apply keeps_node_trans with n1|].
  repeat split; congruence.
Qed.

Lemma updates_node_insert (h : heap) this n n' :
  nodes h !! this = Some n ->
  keeps_node n n' -> children n' = children n -> parent n' = parent n ->
  updates_node h this (set_nodes h (<[this := n']> (nodes h))).
Proof.
  intros Hn Hk Hc Hp. exists n, n'.
  split; [assumption|]. split; [reflexivity|]. split; [assumption|]. auto.
Qed.

Lemma updates_node_contexts (h h1 : heap) this i c :
  updates_node h this h1 ->
  updates_node h this (set_contexts h1 (<[i := c]> (contexts h1))).
Proof.
  intros (n & n1 & Hn & E1 & K1 & C1 & P1 & L1).
  exists n, n1. repeat split; try assumption; try apply K1.
  simpl. now rewrite length_insert.
Qed.

Lemma addLog_updates (h h' : heap) this msg :
  addLog h this msg = Some h' -> updates_node h this h'.
Proof.
  unfold addLog. intros E.
  destruct (nodes h !! this) as [n|] eqn:Hn; simpl in E; [|discriminate].
  destruct (match obj_get (data n) "log" with
            | Some v => if truthy v then v else JArr []
            | None => JArr []
            end); try discriminate.
  injection E as <-.
  apply (updates_node_insert h this n); auto. unfold keeps_node; simpl; repeat split; reflexivity.
Qed.

Lemma addData_updates (h h' : heap) this d msg level :
  addData h this d msg level = Some h' -> updates_node h this h'.
Proof.
  unfold addData. intros E.
  destruct (nodes h !! this) as [n|] eqn:Hn; simpl in E; [|discriminate].
  case_bool_decide.
  - assert (U : updates_node h this
                  (set_nodes h
                     (<[this := with_data n (obj_assign (obj_assign [] (data n)) d)]>
                        (nodes h)))).
    { apply (updates_node_insert h this n); auto. unfold keeps_node; simpl; repeat split; reflexivity. }
    destruct msg as [m|]; [|now injection E as <-].
    destruct (negb (String.eqb m "")); [|now injection E as <-].
    apply addLog_updates in E. now apply updates_node_trans with (2 := E).
  - injection E as <-. now apply updates_node_refl with n.
Qed.

Lemma updateTimestamp_updates (h h' : heap) this e :
  updateTimestamp h this e = Some h' -> updates_node h this h'.
Proof.
  unfold updateTimestamp. intros E.
  destruct (nodes h !! this) as [n|] eqn:Hn; simpl in E; [|discriminate].
  injection E as <-.
  apply (updates_node_insert h this n); auto. unfold keeps_node; simpl; repeat split; reflexivity.
Qed.

Lemma recordQueryResult_updates (h h' : heap) this resources level :
  recordQueryResult h this resources level = Some h' -> updates_node h this h'.
Proof.
  unfold recordQueryResult. intros E.
  destruct (nodes h !! this) as [n|] eqn:Hn; simpl in E; [|discriminate].
  destruct (allowTracing level (diagnosticLevel n));
    [|injection E as <-; now apply updates_node_refl with n].
  destruct resources; injection E as <-;
    try (now apply updates_node_refl with n).
  apply (updates_node_insert h this n); auto. unfold keeps_node; simpl; repeat split; reflexivity.
Qed.

Lemma recordFailedNetworkCall_updates (h h' : heap) this s rc a sc ssc rh now :
  recordFailedNetworkCall h this s rc a sc ssc rh now = Some h' ->
  updates_node h this h'.
Proof.
  unfold recordFailedNetworkCall. intros E.
  destruct (addData h this _ None None) as [h1|] eqn:E1; simpl in E; [|discriminate].
  destruct (nodes h1 !! this) as [n|] eqn:Hn; simpl in E; [|discriminate].
  destruct (contexts h1 !! diagnosticCtx n) as [ctx|] eqn:Hc; simpl in E;
    [|discriminate].
  apply addData_updates in E1. apply addData_updates in E.
  eapply updates_node_trans; [|exact E].
  now apply updates_node_contexts.
Qed.

Lemma recordSuccessfulNetworkCall_updates (h h' : heap) this s rc r p ss u now :
  recordSuccessfulNetworkCall h this s rc r p ss u now = Some h' ->
  updates_node h this h'.
Proof.
  unfold recordSuccessfulNetworkCall. intros E.
  destruct (nodes h !! this) as [n|] eqn:Hn; simpl in E; [|discriminate].
  destruct (addData h this _ None None) as [h1|] eqn:E1; simpl in E; [|discriminate].
  destruct (nodes h1 !! this) as [n1|] eqn:Hn1; simpl in E; [|discriminate].
  destruct (contexts h1 !! diagnosticCtx n1) as [ctx|] eqn:Hc; simpl in E;
    [|discriminate].
  injection E as <-. apply addData_updates in E1.
  now apply updates_node_contexts.
Qed.

Lemma recordEndpointResolution_updates (h h' : heap) this location :
  recordEndpointResolution_node h this location = Some h' ->
  updates_node h this h'.
Proof.
  unfold recordEndpointResolution_node. intros E.
  destruct (addData h this _ None None) as [h1|] eqn:E1; simpl in E; [|discriminate].
  destruct (nodes h1 !! this) as [n|] eqn:Hn; simpl in E; [|discriminate].
  destruct (contexts h1 !! diagnosticCtx n) as [ctx|] eqn:Hc; simpl in E;
    [|discriminate].
  injection E as <-. apply addData_updates in E1.
  now apply updates_node_contexts.
Qed.

Lemma run_call_updates_node (h h' : heap) (c : call) :
  links c = false ->
  run_call h c = Some h' ->
  updates_node h (call_target c) h'.
Proof.
  intros Hl E. destruct c; simpl in *; try discriminate.
  - now apply addLog_updates in E.
  - now apply updateTimestamp_updates in E.
  - now apply recordSuccessfulNetworkCall_updates in E.
  - now apply recordFailedNetworkCall_updates in E.
  - now apply recordEndpointResolution_updates in E.
  - now apply addData_updates in E.
  - now apply recordQueryResult_updates in E.
Qed.

(** X8.  A call that is neither [addChildNode] nor [initializeChildNode]
    changes at most the node it is made on, and of that node neither the
    id, type, start time, context or level nor the children or the
    parent; it creates and drops no context. *)
Theorem recording_call_updates_its_node (h h' : heap) (c : call) :
  links c = false ->
  run_call h c = Some h' ->
  updates_node h (call_target c) h'.
Proof. apply run_call_updates_node. Qed.

End DiagnosticsFrame.

Section DiagnosticsInvariants.
Import JS Diagnostics DiagnosticsRest.
Context `{ContextImports}.

Lemma extends_refl (h : heap) : extends h h.
Proof.
  split; [|reflexivity]. intros r n Hn. exists n. split; [assumption|].
  apply keeps_node_refl.
Qed.

Lemma extends_trans (h1 h2 h3 : heap) :
  extends h1 h2 -> extends h2 h3 -> extends h1 h3.
Proof.
  intros [E1 L1] [E2 L2]. split; [|congruence].
  intros r n Hn. destruct (E1 r n Hn) as (n2 & Hn2 & K2).
  destruct (E2 r n2 Hn2) as (n3 & Hn3 & K3).
  exists n3. split; [assumption|]. now apply keeps_node_trans with n2.
Qed.

Lemma updates_node_extends (h h' : heap) this :
  updates_node h this h' -> extends h h'.
Proof.
  intros (n & n' & Hn & E & K & _ & _ & L). split; [|assumption].
  intros r m Hm. rewrite E.
  pose proof (lookup_lt_Some _ _ _ Hn) as Lt.
  destruct (decide (r = this)) as [->|Hne].
  - rewrite list_lookup_insert_eq by assumption.
    exists n'. split; [reflexivity|]. congruence.
  - rewrite list_lookup_insert_ne by congruence.
    exists m. split; [assumption|]. apply keeps_node_refl.
Qed.

Lemma initializeChildNode_extends (h h' : heap) this type level d uuid now r :
  initializeChildNode h this type level d uuid now = Some (h', r) ->
  extends h h'.
Proof.
  unfold initializeChildNode. intros E.
  destruct (nodes h !! this) as [n|] eqn:Hn; simpl in E; [|discriminate].
  pose proof (lookup_lt_Some _ _ _ Hn) as Lt.
  destruct (allowTracing level (diagnosticLevel n));
    [|injection E as <- <-; apply extends_refl].
  simpl in E. rewrite lookup_app_l, Hn in E by assumption. simpl in E.
  injection E as <- <-. split; [|reflexivity]. simpl.
  intros q m Hm. pose proof (lookup_lt_Some _ _ _ Hm) as Lq.
  destruct (decide (q = this)) as [->|Hne].
  - rewrite list_lookup_insert_eq by (rewrite length_app; simpl; lia).
    eexists. split; [reflexivity|].
    assert (m = n) by congruence. subst m.
    unfold keeps_node. simpl. repeat split; try reflexivity.
    now apply prefix_app_r.
  - rewrite list_lookup_insert_ne by congruence.
    rewrite lookup_app_l by assumption.
    exists m. split; [assumption|]. apply keeps_node_refl.
Qed.

Lemma addChildNode_extends (h h' : heap) this child level metadataType r :
  addChildNode h this child level metadataType = Some (h', r) ->
  extends h h'.
Proof.
  unfold addChildNode. intros E.
  destruct (nodes h !! this) as [n|] eqn:Hn; simpl in E; [|discriminate].
  destruct (nodes h !! child) as [c|] eqn:Hc; simpl in E; [|discriminate].
  destruct (contexts h !! diagnosticCtx n) as [ctx|]; simpl in E; [|discriminate].
  destruct (contexts h !! diagnosticCtx c) as [cctx|]; simpl in E; [|discriminate].
  pose proof (lookup_lt_Some _ _ _ Hn) as Lt.
  pose proof (lookup_lt_Some _ _ _ Hc) as Lc.
  destruct (allowTracing level (diagnosticLevel n)).
  - destruct (<[child := with_parent c (Some this)]> (nodes h) !! this)
      as [n1|] eqn:Hn1; simpl in E; [|discriminate].
    injection E as <- <-. split; [|simpl; apply length_insert]. simpl.
    assert (K1 : keeps_node n n1).
    { destruct (decide (this = child)) as [->|Hne].
      - rewrite list_lookup_insert_eq in Hn1 by assumption.
        injection Hn1 as <-. assert (c = n) by congruence. subst c.
        unfold keeps_node. simpl. repeat split; reflexivity.
      - rewrite list_lookup_insert_ne in Hn1 by congruence.
        assert (n1 = n) by congruence. subst n1. apply keeps_node_refl. }
    intros q m Hm.
    destruct (decide (q = this)) as [->|Hq].
    + rewrite list_lookup_insert_eq by now rewrite length_insert.
      eexists. split; [reflexivity|].
      assert (m = n) by congruence. subst m.
      destruct K1 as (A1 & A2 & A3 & A4 & A5 & A6).
      unfold keeps_node. simpl. repeat split; try assumption.
      etransitivity; [exact A6|]. now apply prefix_app_r.
    + rewrite list_lookup_insert_ne by congruence.
      destruct (decide (q = child)) as [->|Hq'].
      * rewrite list_lookup_insert_eq by assumption.
        eexists. split; [reflexivity|].
        assert (m = c) by congruence. subst m.
        unfold keeps_node. simpl. repeat split; reflexivity.
      * rewrite list_lookup_insert_ne by congruence.
        exists m. split; [assumption|]. apply keeps_node_refl.
  - injection E as <- <-. split; [|simpl; apply length_insert]. simpl.
    intros q m Hm. exists m. split; [assumption|]. apply keeps_node_refl.
Qed.

Lemma run_call_extends (h h' : heap) (c : call) :
  run_call h c = Some h' -> extends h h'.
Proof.
  intros E. destruct (links c) eqn:Hl.
  - destruct c; simpl in *; try discriminate.
    + destruct (addChildNode h this child level metadataType) as [[h1 r]|] eqn:E1;
        simpl in E; [|discriminate].
      injection E as <-. now apply addChildNode_extends in E1.
    + destruct (initializeChildNode h this type level d uuid now) as [[h1 r]|] eqn:E1;
        simpl in E; [|discriminate].
      injection E as <-. now apply initializeChildNode_extends in E1.
  - apply updates_node_extends with (call_target c).
    now apply run_call_updates_node.
Qed.

(** X9.  Whatever sequence of calls is made on a store, every node of
    the store is still there afterwards with the id, type, start time,
    context and level it had, its earlier children are a prefix of its
    children (children are only appended, never removed or reordered),
    and the contexts are as many as before. *)
Theorem calls_extend_the_store (cs : list call) :
  forall h h' : heap, run_calls h cs = Some h' -> extends h h'.
Proof.
  induction cs as [|c cs IH]; intros h h' E; simpl in E.
  - injection E as <-. apply extends_refl.
  - destruct (run_call h c) as [h1|] eqn:E1; simpl in E; [|discriminate].
    apply extends_trans with h1; [now apply run_call_extends in E1|now apply IH].
Qed.

End DiagnosticsInvariants.

Section DiagnosticsSnapshots.
Import JS Diagnostics DiagnosticsRest.
Context `{ContextImports}.

Lemma updates_node_ordered (h h' : heap) this :
  updates_node h this h' -> ordered h -> ordered h'.
Proof.
  intros (n & n' & Hn & E & _ & C & _ & _) Ho r m c Hm Hc.
  pose proof (lookup_lt_Some _ _ _ Hn) as Lt.
  rewrite E in Hm. rewrite E, length_insert.
  destruct (decide (r = this)) as [->|Hne].
  - rewrite list_lookup_insert_eq in Hm by assumption. injection Hm as <-.
    rewrite C in Hc. now apply (Ho this n c).
  - rewrite list_lookup_insert_ne in Hm by congruence. now apply (Ho r m c).
Qed.

Lemma initializeChildNode_ordered (h h' : heap) this type level d uuid now r :
  initializeChildNode h this type level d uuid now = Some (h', r) ->
  ordered h -> ordered h'.
Proof.
  unfold initializeChildNode. intros E Ho.
  destruct (nodes h !! this) as [n|] eqn:Hn; simpl in E; [|discriminate].
  pose proof (lookup_lt_Some _ _ _ Hn) as Lt.
  destruct (allowTracing level (diagnosticLevel n));
    [|now injection E as <- <-].
  simpl in E. rewrite lookup_app_l, Hn in E by assumption. simpl in E.
  injection E as <- <-. intros q m c. simpl.
  rewrite length_insert, length_app. simpl.
  destruct (decide (q = this)) as [->|Hne].
  - rewrite list_lookup_insert_eq by (rewrite length_app; simpl; lia).
    intros Hm Hc. injection Hm as <-. simpl in Hc.
    apply elem_of_app in Hc as [Hc|Hc].
    + destruct (Ho this n c Hn Hc). lia.
    + apply list_elem_of_singleton in Hc. subst c. lia.
  - rewrite list_lookup_insert_ne by congruence.
    intros Hm Hc. destruct (decide (q < length (nodes h))%nat) as [Lq|Lq].
    + rewrite lookup_app_l in Hm by assumption.
      destruct (Ho q m c Hm Hc). lia.
    + rewrite lookup_app_r in Hm by lia.
      destruct (q - length (nodes h))%nat as [|k] eqn:Ek; simpl in Hm.
      * injection Hm as <-. simpl in Hc. now apply elem_of_nil in Hc.
      * destruct k; discriminate.
Qed.

Lemma run_calls_ordered (cs : list call) :
  forall h h' : heap,
    forallb (fun c => negb (is_addChildNode c)) cs = true ->
    run_calls h cs = Some h' ->
    ordered h -> ordered h'.
Proof.
  induction cs as [|c cs IH]; intros h h' Hcs E Ho; simpl in *.
  - now injection E as <-.
  - apply andb_true_iff in Hcs as [Hc Hcs].
    destruct (run_call h c) as [h1|] eqn:E1; simpl in E; [|discriminate].
    apply (IH h1 h' Hcs E).
    destruct (links c) eqn:Hl.
    + destruct c; simpl in *; try discriminate.
      destruct (initializeChildNode h this type level d uuid now) as [[h2 r]|] eqn:E2;
        simpl in E1; [|discriminate].
      injection E1 as <-. now apply initializeChildNode_ordered in E2.
    + apply updates_node_ordered with h (call_target c); [|assumption].
      now apply run_call_updates_node.
Qed.

Lemma root_ordered level type parent d start ctx uuid :
  ordered (fst (new_DiagnosticNodeInternal
                  {| nodes := []; contexts := [] |} level type parent d start ctx uuid)).
Proof.
  intros r n c Hn Hc. unfold new_DiagnosticNodeInternal in Hn.
  destruct ctx; simpl in Hn; destruct r as [|r]; simpl in Hn; try discriminate;
    injection Hn as <-; simpl in Hc; now apply elem_of_nil in Hc.
Qed.

(** X10.  A store that starts as one new node and is changed by any
    calls other than [addChildNode] stays ordered: every child of a node
    is in the store and was allocated after the node, so no node is below
    itself. *)
Theorem calls_without_addChildNode_keep_order (cs : list call) (h' : heap)
        level type parent d start ctx uuid :
  forallb (fun c => negb (is_addChildNode c)) cs = true ->
  run_calls (fst (new_DiagnosticNodeInternal
                    {| nodes := []; contexts := [] |}
                    level type parent d start ctx uuid)) cs = Some h' ->
  ordered h'.
Proof.
  intros Hcs E. apply (run_calls_ordered cs _ h' Hcs E). apply root_ordered.
Qed.

Lemma toDiagnosticNode_ordered (h : heap) :
  ordered h ->
  forall fuel r,
    (r < length (nodes h))%nat -> (length (nodes h) - r <= fuel)%nat ->
    exists n cs,
      nodes h !! r = Some n /\
      toDiagnosticNode fuel h r
      = Some (Build_DiagnosticNode (id n) (nodeType n) cs (data n)
                                   (startTimeUTCInMs n) (durationInMs n)) /\
      length cs = length (children n).
Proof.
  intros Ho. induction fuel as [|fuel IH]; intros r Lr Lf; [lia|].
  destruct (lookup_lt_is_Some_2 (nodes h) r Lr) as [n Hn].
  assert (Hcs : exists cs, mapM (toDiagnosticNode fuel h) (children n) = Some cs).
  { apply mapM_is_Some. apply Forall_forall. intros c Hc.
    destruct (Ho r n c Hn Hc) as [Lc Lc'].
    destruct (IH c Lc' ltac:(lia)) as (m & cs & _ & E & _).
    simpl. rewrite E. eauto. }
  destruct Hcs as [cs Hcs].
  exists n, cs. split; [assumption|]. simpl. rewrite Hn. simpl. rewrite Hcs. simpl.
  split; [reflexivity|].
  symmetry. now apply length_mapM in Hcs.
Qed.

(** X11.  On an ordered store [toDiagnosticNode] returns for every node,
    within a recursion depth of the number of nodes: the result carries
    the id, type, data, start time and duration of the node and has one
    child per child of the node. *)
Theorem toDiagnosticNode_returns (h : heap) (r : node_ref) :
  ordered h ->
  (r < length (nodes h))%nat ->
  exists n cs,
    nodes h !! r = Some n /\
    toDiagnosticNode (length (nodes h)) h r
    = Some (Build_DiagnosticNode (id n) (nodeType n) cs (data n)
                                 (startTimeUTCInMs n) (durationInMs n)) /\
    length cs = length (children n).
Proof.
  intros Ho Lr. apply toDiagnosticNode_ordered; [assumption|assumption|lia].
Qed.

Lemma toDiagnosticNode_cycle (h : heap) (r : node_ref) (n : DiagnosticNodeInternal) :
  nodes h !! r = Some n -> r ∈ children n ->
  forall fuel, toDiagnosticNode fuel h r = None.
Proof.
  intros Hn Hc. induction fuel as [|fuel IH]; [reflexivity|].
  simpl. rewrite Hn. simpl.
  rewrite (mapM_None_2 (toDiagnosticNode fuel h) (children n)); [reflexivity|].
  apply Exists_exists. exists r. split; assumption.
Qed.

(** X12.  A node added as a child of itself, at a level the gate lets
    pass, has no snapshot: [toDiagnosticNode] does not return for it at
    any recursion depth. *)
Theorem toDiagnosticNode_of_own_child (h h' : heap) (this : node_ref)
        (level : CosmosDbDiagnosticLevel) (metadataType : jsval)
        (n : DiagnosticNodeInternal) :
  nodes h !! this = Some n ->
  allowTracing level (diagnosticLevel n) = true ->
  addChildNode h this this level metadataType = Some (h', this) ->
  forall fuel, toDiagnosticNode fuel h' this = None.
Proof.
  intros Hn G E. pose proof (lookup_lt_Some _ _ _ Hn) as Lt.
  unfold addChildNode in E. rewrite Hn in E. simpl in E.
  destruct (contexts h !! diagnosticCtx n) as [ctx|]; simpl in E; [|discriminate].
  rewrite G in E. simpl in E.
  rewrite list_lookup_insert_eq in E by assumption. simpl in E.
  injection E as <-.
  apply toDiagnosticNode_cycle
    with (n := with_children (with_parent n (Some this)) (children n ++ [this])).
  - simpl. apply list_lookup_insert_eq. now rewrite length_insert.
  - simpl. apply elem_of_app. right. apply list_elem_of_here.
Qed.

End DiagnosticsSnapshots.

Section DiagnosticsRecording.
Import JS Diagnostics DiagnosticsRest.
Context `{ContextImports}.

Lemma nearest_double_exact (z : Z) :
  - 2 ^ 53 <= z <= 2 ^ 53 -> nearest_double z = z.
Proof.
  intros Hz. unfold nearest_double.
  replace (Z.abs z <=? 2 ^ 53) with true; [reflexivity|].
  symmetry. apply Z.leb_le. lia.
Qed.

(** Above [2 ^ 53] the sum is not always the exact one: a count of
    [2 ^ 53] stays where it is when one more record is read. *)
Lemma add_length_rounds :
  add_length (Some (JNum (2 ^ 53))) 1 = JNum (2 ^ 53)
  /\ add_length (Some (JNum (2 ^ 53))) 3 = JNum (2 ^ 53 + 4).
Proof. split; vm_compute; reflexivity. Qed.

Lemma recordQueryResult_counts (h : heap) this level n c (elems : list jsval) :
  nodes h !! this = Some n ->
  allowTracing level (diagnosticLevel n) = true ->
  (obj_get (data n) "queryRecordsRead" = None /\ c = 0
   \/ obj_get (data n) "queryRecordsRead" = Some (JNum c)) ->
  - 2 ^ 53 <= c -> c + Z.of_nat (length elems) <= 2 ^ 53 ->
  recordQueryResult h this (JArr elems) level
  = Some (set_nodes h
            (<[this := with_data n
                         (obj_set (data n) "queryRecordsRead"
                            (JNum (c + Z.of_nat (length elems))))]>
               (nodes h))).
Proof.
  intros Hn G Hc Lo Hi. unfold recordQueryResult. rewrite Hn. simpl. rewrite G.
  assert (Hx : nearest_double (c + Z.of_nat (length elems))
               = c + Z.of_nat (length elems)).
  { apply nearest_double_exact. lia. }
  destruct Hc as [[-> ->]| ->]; unfold add_length; now rewrite Hx.
Qed.

(** X13.  The count of records read adds up: on a node with no count
    yet, or with the number [c], a sequence of [recordQueryResult] calls
    with arrays, at a level the gate lets pass, leaves the count [c] plus
    the total number of elements, as long as the count stays among the
    integers that doubles hold exactly, from [- 2 ^ 53] to [2 ^ 53]; a
    call at a level the gate stops, or with a value that is not an
    array, changes nothing. *)
Theorem recordQueryResult_accumulates (batches : list (list jsval)) :
  forall (h : heap) (this : node_ref) (level : CosmosDbDiagnosticLevel)
         (n : DiagnosticNodeInternal) (c : Z),
    nodes h !! this = Some n ->
    (obj_get (data n) "queryRecordsRead" = None /\ c = 0
     \/ obj_get (data n) "queryRecordsRead" = Some (JNum c)) ->
    (allowTracing level (diagnosticLevel n) = true ->
     batches <> [] ->
     - 2 ^ 53 <= c ->
     c + Z.of_nat (length (concat batches)) <= 2 ^ 53 ->
     exists h' n',
       run_calls h (map (fun b => Call_recordQueryResult this (JArr b) level) batches)
       = Some h' /\
       nodes h' !! this = Some n' /\
       obj_get (data n') "queryRecordsRead"
       = Some (JNum (c + Z.of_nat (length (concat batches))))) /\
    (forall resources,
        allowTracing level (diagnosticLevel n) = false
        \/ (forall elems, resources <> JArr elems) ->
        recordQueryResult h this resources level = Some h).
Proof.
  intros h this level n c Hn Hc. split.
  - intros G Hne Lo Hi.
    assert (Hgen : forall (batches : list (list jsval)) (h : heap) n c,
               nodes h !! this = Some n ->
               allowTracing level (diagnosticLevel n) = true ->
               obj_get (data n) "queryRecordsRead" = Some (JNum c) ->
               - 2 ^ 53 <= c ->
               c + Z.of_nat (length (concat batches)) <= 2 ^ 53 ->
               exists h' n',
                 run_calls h (map (fun b => Call_recordQueryResult this (JArr b) level)
                                  batches) = Some h' /\
                 nodes h' !! this = Some n' /\
                 obj_get (data n') "queryRecordsRead"
                 = Some (JNum (c + Z.of_nat (length (concat batches))))).
    { clear. induction batches as [|b batches IH]; intros h n c Hn G Hc Lo Hi; simpl.
      - exists h, n. rewrite Z.add_0_r. auto.
      - simpl in Hi. rewrite length_app in Hi.
        rewrite (recordQueryResult_counts h this level n c b Hn G) by (auto; lia).
        simpl.
        pose proof (lookup_lt_Some _ _ _ Hn) as Lt.
        destruct (IH (set_nodes h
                        (<[this := with_data n
                                     (obj_set (data n) "queryRecordsRead"
                                        (JNum (c + Z.of_nat (length b))))]>
                           (nodes h)))
                     (with_data n (obj_set (data n) "queryRecordsRead"
                                     (JNum (c + Z.of_nat (length b)))))
                     (c + Z.of_nat (length b)))
          as (h' & n' & E & Hn' & Hq).
        + simpl. now apply list_lookup_insert_eq.
        + exact G.
        + simpl. apply obj_get_set_eq.
        + lia.
        + lia.
        + exists h', n'. split; [exact E|]. split; [exact Hn'|].
          rewrite Hq. do 2 f_equal. rewrite length_app. lia. }
    destruct batches as [|b batches]; [congruence|]. simpl.
    simpl in Hi. rewrite length_app in Hi.
    rewrite (recordQueryResult_counts h this level n c b Hn G Hc) by lia. simpl.
    pose proof (lookup_lt_Some _ _ _ Hn) as Lt.
    destruct (Hgen batches
                (set_nodes h
                   (<[this := with_data n
                                (obj_set (data n) "queryRecordsRead"
                                   (JNum (c + Z.of_nat (length b))))]>
                      (nodes h)))
                (with_data n (obj_set (data n) "queryRecordsRead"
                                (JNum (c + Z.of_nat (length b)))))
                (c + Z.of_nat (length b)))
      as (h' & n' & E & Hn' & Hq).
    + simpl. now apply list_lookup_insert_eq.
    + exact G.
    + simpl. apply obj_get_set_eq.
    + lia.
    + lia.
    + exists h', n'. split; [exact E|]. split; [exact Hn'|].
      rewrite Hq. do 2 f_equal. rewrite length_app. lia.
  - intros resources Hr. unfold recordQueryResult. rewrite Hn. simpl.
    destruct (allowTracing level (diagnosticLevel n)); [|reflexivity].
    destruct Hr as [Hr|Hr]; [discriminate|].
    destruct resources; try reflexivity. now destruct (Hr elems).
Qed.

(** X14.  One call of [recordSuccessfulNetworkCall] makes one call of
    [recordNetworkCall] on the node's context, with the gateway request of
    the call, at every level of the node; no other context changes.  The
    node's data stay as they were at level [info]; at any other level
    [requestData] holds the three plain members and, exactly when the
    [debugUnsafe] gate passes, the headers, the request body, the
    response body and the URL. *)
Theorem recordSuccessfulNetworkCall_records_once (h : heap) (this : node_ref)
        (startTime : Z) (rc : RequestContext) (rangeId : jsval)
        (response : PipelineResponse) (substatus url : jsval) (now : Z)
        (n : DiagnosticNodeInternal) (ctx : CosmosDiagnosticContext) :
  nodes h !! this = Some n ->
  contexts h !! diagnosticCtx n = Some ctx ->
  exists h' n',
    recordSuccessfulNetworkCall h this startTime rc rangeId response substatus url now
    = Some h' /\
    contexts h' =
      <[diagnosticCtx n :=
          recordNetworkCall ctx
            (gatewayRequest_of startTime rc rangeId response substatus now)]>
        (contexts h) /\
    nodes h' !! this = Some n' /\
    (diagnosticLevel n = info -> data n' = data n) /\
    (diagnosticLevel n <> info ->
     obj_get (data n') "requestData" =
     Some (JObj (if allowTracing debugUnsafe (diagnosticLevel n)
                 then requestData_base rc
                      ++ requestData_unsafe_success rc response url
                 else requestData_base rc))).
Proof.
  intros Hn Hctx. pose proof (lookup_lt_Some _ _ _ Hn) as Lt.
  unfold recordSuccessfulNetworkCall. rewrite Hn. simpl.
  rewrite (addData_plain h this n _ Hn). simpl.
  case_bool_decide as Hlvl.
  - simpl. rewrite list_lookup_insert_eq by assumption. simpl.
    rewrite Hctx. simpl.
    eexists _, _. split; [reflexivity|]. simpl.
    split; [reflexivity|]. split; [now apply list_lookup_insert_eq|]. simpl.
    split; [contradiction|]. intros _.
    unfold success_data, obj_assign at 1, assoc_assign. simpl fold_left.
    unfold obj_get. rewrite (assoc_get_set_eq String.eqb string_eqb_spec).
    destruct (allowTracing debugUnsafe (diagnosticLevel n)); reflexivity.
  - assert (Hinfo : diagnosticLevel n = info).
    { destruct (decide (diagnosticLevel n = info)); [assumption|contradiction]. }
    rewrite Hn. simpl. rewrite Hctx. simpl.
    eexists _, _. split; [reflexivity|]. simpl.
    split; [reflexivity|]. split; [exact Hn|].
    split; [reflexivity|]. contradiction.
Qed.

(** A text of characters below 128 has one code unit per byte. *)
Lemma utf16_length_ascii (s : string) :
  Forall (fun c => (nat_of_ascii c < 128)%nat) (String.list_ascii_of_string s) ->
  utf16_length s = String.length s.
Proof.
  induction s as [|c s IH]; simpl; intros Hall; [reflexivity|].
  apply Forall_cons in Hall as [Hc Hall]. rewrite IH by assumption.
  unfold utf16_units. apply Nat.ltb_lt in Hc. now rewrite Hc.
Qed.

(** X15.  The two payload lengths differ on a body without a length:
    [calculateResponsePayloadLength] is never [undefined], it is [0] for
    a missing response and for a falsy body ([undefined], [null], the
    empty text); for a text body both functions return its length in
    UTF-16 code units; [calculateRequestPayloadLength] is [0] for a
    falsy body, but [undefined] for a truthy body that has no [length],
    such as a number or a plain object without that member. *)
Theorem payload_lengths (response : option PipelineResponse) (rc : RequestContext) :
  calculateResponsePayloadLength response <> JUndefined /\
  (response = None -> calculateResponsePayloadLength response = JNum 0) /\
  (forall r,
      response = Some r -> truthy (bodyAsText r) = false ->
      calculateResponsePayloadLength response = JNum 0) /\
  (forall r s,
      response = Some r -> bodyAsText r = JStr s ->
      calculateResponsePayloadLength response = JNum (Z.of_nat (utf16_length s))) /\
  (forall s,
      body rc = JStr s ->
      calculateRequestPayloadLength rc = JNum (Z.of_nat (utf16_length s))) /\
  (truthy (body rc) = false -> calculateRequestPayloadLength rc = JNum 0) /\
  (truthy (body rc) = true ->
   get_property (body rc) "length" = JUndefined ->
   calculateRequestPayloadLength rc = JUndefined).
Proof.
  repeat split.
  - unfold calculateResponsePayloadLength.
    destruct response as [r|]; [|discriminate].
    destruct (bodyAsText r) eqn:Eb; try discriminate;
      match goal with
      | |- (if truthy ?l then _ else _) <> _ =>
          destruct (truthy l) eqn:Et; [|discriminate];
          intros Hu; rewrite Hu in Et; discriminate
      end.
  - intros ->. reflexivity.
  - intros r -> Hf. unfold calculateResponsePayloadLength.
    destruct (bodyAsText r) as [| |b|z|s|l|o|m]; try reflexivity; try discriminate.
    simpl in Hf. apply negb_false_iff, String.eqb_eq in Hf. now subst s.
  - intros r s -> Hb. unfold calculateResponsePayloadLength. rewrite Hb.
    cbn [get_property]. rewrite String.eqb_refl. cbn [truthy].
    destruct (Z.of_nat (utf16_length s) =? 0) eqn:Ez; [|reflexivity].
    apply Z.eqb_eq in Ez. simpl. now rewrite Ez.
  - intros s Hb. unfold calculateRequestPayloadLength. rewrite Hb.
    cbn [get_property truthy]. rewrite String.eqb_refl.
    destruct s; reflexivity.
  - intros Hf. unfold calculateRequestPayloadLength. now rewrite Hf.
  - intros Ht Hl. unfold calculateRequestPayloadLength. now rewrite Ht.
Qed.

Lemma recordFailedNetworkCall_context (h : heap) this s rc a sc ssc rh now n ctx :
  nodes h !! this = Some n ->
  contexts h !! diagnosticCtx n = Some ctx ->
  exists h',
    recordFailedNetworkCall h this s rc a sc ssc rh now = Some h' /\
    contexts h' =
      <[diagnosticCtx n :=
          recordFailedAttempt ctx (failedAttempt_statistics s rc sc ssc rh now) a]>
        (contexts h).
Proof.
  intros Hn Hctx. pose proof (lookup_lt_Some _ _ _ Hn) as Lt.
  unfold recordFailedNetworkCall.
  rewrite (addData_plain h this n _ Hn). simpl.
  case_bool_decide as Hlvl.
  - simpl. rewrite list_lookup_insert_eq by assumption. simpl.
    rewrite Hctx. simpl.
    erewrite addData_plain by (simpl; apply list_lookup_insert_eq; assumption).
    simpl. rewrite bool_decide_eq_true_2 by assumption.
    eexists. split; reflexivity.
  - assert (Hinfo : diagnosticLevel n = info).
    { destruct (decide (diagnosticLevel n = info)); [assumption|contradiction]. }
    rewrite Hn. simpl. rewrite Hctx. simpl.
    erewrite addData_plain by (simpl; exact Hn).
    rewrite bool_decide_eq_false_2 by (intros Hx; apply Hx; exact Hinfo).
    eexists. split; reflexivity.
Qed.

(** X16.  Whatever the gate decides, a failed network call recorded on
    the node that [initializeChildNode] returns is recorded in the
    context of the node the child was asked of: the child shares that
    context, and the fallback is that node itself. *)
Theorem child_records_into_parent_context (h : heap) (this : node_ref)
        (type : DiagnosticNodeType) (level : CosmosDbDiagnosticLevel)
        (d : option (list (string * jsval))) (uuid : string) (now : Z)
        (s : Z) (rc : RequestContext) (a : Z) (sc ssc : jsval)
        (rh : list (string * jsval)) (now' : Z)
        (n : DiagnosticNodeInternal) (ctx : CosmosDiagnosticContext) :
  nodes h !! this = Some n ->
  contexts h !! diagnosticCtx n = Some ctx ->
  exists h1 r h2,
    initializeChildNode h this type level d uuid now = Some (h1, r) /\
    recordFailedNetworkCall h1 r s rc a sc ssc rh now' = Some h2 /\
    contexts h2 !! diagnosticCtx n
    = Some (recordFailedAttempt ctx (failedAttempt_statistics s rc sc ssc rh now') a).
Proof.
  intros Hn Hctx.
  pose proof (lookup_lt_Some _ _ _ Hn) as Lt.
  pose proof (lookup_lt_Some _ _ _ Hctx) as Lx.
  unfold initializeChildNode. rewrite Hn. simpl.
  destruct (allowTracing level (diagnosticLevel n)).
  - simpl. rewrite lookup_app_l, Hn by assumption. simpl.
    eexists _, _. 
    edestruct (recordFailedNetworkCall_context
                 (set_nodes
                    {| nodes := nodes h ++
                         [{| id := uuid; nodeType := type; startTimeUTCInMs := now;
                             data := default [] d; children := []; durationInMs := 0;
                             parent := Some this; diagnosticCtx := diagnosticCtx n;
                             diagnosticLevel := diagnosticLevel n |}];
                       contexts := contexts h |}
                    (<[this := with_children n (children n ++ [length (nodes h)])]>
                       (nodes h ++
                          [{| id := uuid; nodeType := type; startTimeUTCInMs := now;
                              data := default [] d; children := []; durationInMs := 0;
                              parent := Some this; diagnosticCtx := diagnosticCtx n;
                              diagnosticLevel := diagnosticLevel n |}])))
                 (length (nodes h)) s rc a sc ssc rh now')
      as (h2 & E2 & C2).
    + simpl. rewrite list_lookup_insert_ne by lia.
      rewrite lookup_app_r by lia. rewrite Nat.sub_diag. reflexivity.
    + simpl. exact Hctx.
    + exists h2. split; [reflexivity|]. split; [exact E2|].
      rewrite C2. simpl. now apply list_lookup_insert_eq.
  - destruct (recordFailedNetworkCall_context h this s rc a sc ssc rh now' n ctx Hn Hctx)
      as (h2 & E2 & C2).
    exists h, this, h2. split; [reflexivity|]. split; [exact E2|].
    rewrite C2. now apply list_lookup_insert_eq.
Qed.

End DiagnosticsRecording.

(** ** The GROUP BY stage *)

Section GroupByMore.
Local Open Scope nat_scope.
Import JS GroupBy GroupByOrder.
Import ExecutionContext(JsError, Response, name, code, fetchedResults, message,
                        result, headers, Build_JsError, Build_Response).
Context `{Imports}.
Context {Args S : Type} `{EC : !ExecutionContext.ExecutionContext Args Headers Row S}.

(** Rows processed list after list give what their concatenation gives,
    the groups as well as a throw. *)
Lemma process_rows_app_eq q (a b : list Row) :
  forall g : list (string * Grouping),
    process_rows q g (a ++ b)
    = match process_rows q g a with
      | (g1, Some err) => (g1, Some err)
      | (g1, None) => process_rows q g1 b
      end.
Proof.
  induction a as [|row a IH]; intros g; simpl; [reflexivity|].
  destruct (process_row q g row) as [g1 [err|]]; [reflexivity|apply IH].
Qed.

Lemma rows_of_app (rs1 rs2 : list (Response Headers Row)) :
  rows_of (rs1 ++ rs2) = rows_of rs1 ++ rows_of rs2.
Proof. unfold rows_of. apply omap_app. Qed.

Lemma nextItem_drains_eq fuel args (this : GroupByEndpointComponent S) rs s' g' :
  aggregateResultArray this = [] ->
  completed this = false ->
  delivers args (executionContext this) rs s' ->
  process_rows (queryInfo this) (groupings this) (rows_of rs) = (g', None) ->
  length rs <= fuel ->
  nextItem fuel args this
  = Some ({| executionContext := s'; queryInfo := queryInfo this;
             groupings := g';
             aggregateResultArray :=
               removelast (map (fun kv => group_result (snd kv)) g');
             completed := true |},
          inr {| result := last (map (fun kv => group_result (snd kv)) g');
                 headers := merged_headers getInitialHeader rs |}).
Proof.
  intros Hbuf Hcompl Hdel Hproc Hfuel.
  unfold nextItem. rewrite Hbuf, Hcompl. simpl.
  rewrite (drain_delivers args _ _ rs s' Hdel _ g' fuel getInitialHeader Hproc Hfuel).
  rewrite push_group_results_app. reflexivity.
Qed.

(** X17.  The pull that drains the inner context: on a stage that is
    not completed and has an empty buffer, over an inner context that
    delivers [rs], whose rows are processed without a throw into the
    groups [g'], [nextItem] returns the result of the last group (or
    [undefined] when there is none) with the headers of all responses of
    [rs] merged in order into the initial headers; the results of the
    other groups are left in the buffer, the stage is completed and the
    inner context is exhausted. *)
Theorem nextItem_drains fuel args (this : GroupByEndpointComponent S) rs s' g' :
  aggregateResultArray this = [] ->
  completed this = false ->
  delivers args (executionContext this) rs s' ->
  process_rows (queryInfo this) (groupings this) (rows_of rs) = (g', None) ->
  length rs <= fuel ->
  nextItem fuel args this
  = Some ({| executionContext := s'; queryInfo := queryInfo this;
             groupings := g';
             aggregateResultArray :=
               removelast (map (fun kv => group_result (snd kv)) g');
             completed := true |},
          inr {| result := last (map (fun kv => group_result (snd kv)) g');
                 headers := merged_headers getInitialHeader rs |})
  /\ ExecutionContext.hasMoreResults s' = false.
Proof.
  intros Hbuf Hcompl Hdel Hproc Hfuel. split.
  - now apply nextItem_drains_eq.
  - now apply delivers_exhausted in Hdel.
Qed.

(** X18.  No rows: a new stage over an inner context that delivers
    responses without any row returns, at its first pull, an [undefined]
    result with the merged headers of those responses, is completed with
    no group and an empty buffer, and reports no more results. *)
Theorem nextItem_without_rows fuel args q s rs s' :
  delivers args s rs s' ->
  rows_of rs = [] ->
  length rs <= fuel ->
  nextItem fuel args (new_GroupByEndpointComponent s q)
  = Some ({| executionContext := s'; queryInfo := q; groupings := [];
             aggregateResultArray := []; completed := true |},
          inr {| result := None; headers := merged_headers getInitialHeader rs |})
  /\ hasMoreResults {| executionContext := s'; queryInfo := q; groupings := [];
                       aggregateResultArray := []; completed := true |}
     = false.
Proof.
  intros Hdel Hrows Hfuel. split.
  - rewrite (nextItem_drains_eq fuel args (new_GroupByEndpointComponent s q) rs s' []);
      try reflexivity; try assumption.
    simpl. now rewrite Hrows.
  - unfold hasMoreResults. simpl.
    now rewrite (delivers_exhausted _ _ _ _ Hdel).
Qed.

(** A stage that is completed, or has results in its buffer, does
    not pull the inner context and does not throw: with any fuel, none
    included, [nextItem] returns the last result of the buffer
    ([undefined] for an empty buffer) with the initial headers, removes
    that result from the buffer, and leaves the inner context, the groups
    and [completed] as they were. *)
Lemma nextItem_from_buffer fuel args (this : GroupByEndpointComponent S) :
  completed this = true \/ aggregateResultArray this <> [] ->
  nextItem fuel args this
  = Some ({| executionContext := executionContext this;
             queryInfo := queryInfo this;
             groupings := groupings this;
             aggregateResultArray := removelast (aggregateResultArray this);
             completed := completed this |},
          inr {| result := last (aggregateResultArray this);
                 headers := getInitialHeader |}).
Proof.
  intros Hs. unfold nextItem.
  destruct (aggregateResultArray this) as [|x buf] eqn:Hbuf.
  - destruct Hs as [Hc|Hne]; [|congruence]. simpl. rewrite Hc.
    destruct this; simpl in *. now subst.
  - reflexivity.
Qed.

Lemma drain_exhausts fuel args q :
  forall s g hdr s' g' hdr',
    drain fuel args q s g hdr = Some (s', g', hdr', None) ->
    ExecutionContext.hasMoreResults s' = false.
Proof.
  induction fuel as [|fuel IH]; intros s g hdr s' g' hdr' E; simpl in E.
  - destruct (ExecutionContext.hasMoreResults s) eqn:Hm; [discriminate|].
    now injection E as <- _ _.
  - destruct (ExecutionContext.hasMoreResults s) eqn:Hm;
      [|now injection E as <- _ _].
    destruct (ExecutionContext.nextItem args s) as [s1 [err|r]]; [discriminate|].
    destruct (result r) as [row|].
    + destruct (process_row q g row) as [g1 [err|]]; [discriminate|].
      now apply IH in E.
    + now apply IH in E.
Qed.

(** X19.  [completed] is set only when the inner context is exhausted:
    a pull on a stage that is not completed and has an empty buffer
    either returns, and then the stage is completed and its inner context
    reports no more results, or throws, and then the stage is not
    completed and its buffer is still empty. *)
Theorem nextItem_completes_only_exhausted fuel args
        (this this' : GroupByEndpointComponent S)
        (out : JsError + Response Headers GroupResult) :
  completed this = false ->
  aggregateResultArray this = [] ->
  nextItem fuel args this = Some (this', out) ->
  match out with
  | inr _ =>
      completed this' = true /\
      ExecutionContext.hasMoreResults (executionContext this') = false
  | inl _ =>
      completed this' = false /\ aggregateResultArray this' = []
  end.
Proof.
  intros Hc Hbuf E. unfold nextItem in E. rewrite Hbuf, Hc in E. simpl in E.
  destruct (drain fuel args (queryInfo this) (executionContext this)
                  (groupings this) getInitialHeader)
    as [[[[s' g'] hdr'] [err|]]|] eqn:Ed; [| |discriminate].
  - injection E as <- <-. simpl. auto.
  - apply drain_exhausts in Ed.
    destruct (array_pop (push_group_results g' [])) as [r rest].
    injection E as <- <-. simpl. auto.
Qed.

(** X20.  A throw of the inner context loses no row: after a pull that
    threw, the next pull goes on from where the inner context stands, and
    when the inner context then delivers [rs2] the groups are those of
    the rows delivered before and after the throw together.  The headers
    returned are those of [rs2] alone: the ones merged before the throw
    are gone. *)
Theorem nextItem_resumes_after_throw fuel args (this : GroupByEndpointComponent S)
        rs1 err s1 g1 rs2 s2 g2 :
  aggregateResultArray this = [] ->
  completed this = false ->
  throws_after args (executionContext this) rs1 err s1 ->
  process_rows (queryInfo this) (groupings this) (rows_of rs1) = (g1, None) ->
  delivers args s1 rs2 s2 ->
  process_rows (queryInfo this) g1 (rows_of rs2) = (g2, None) ->
  length rs1 < fuel -> length rs2 <= fuel ->
  exists this1 this2,
    nextItem fuel args this = Some (this1, inl (catch_clause err)) /\
    nextItem fuel args this1
    = Some (this2,
            inr {| result := last (map (fun kv => group_result (snd kv)) g2);
                   headers := merged_headers getInitialHeader rs2 |}) /\
    groupings this2 = g2 /\
    process_rows (queryInfo this) (groupings this) (rows_of rs1 ++ rows_of rs2)
    = (g2, None).
Proof.
  intros Hbuf Hc Hthr Hp1 Hdel Hp2 Hf1 Hf2.
  eexists _, _. split; [|split; [|split]].
  - unfold nextItem. rewrite Hbuf, Hc. simpl.
    rewrite (drain_throws args _ _ rs1 err s1 Hthr _ g1 fuel getInitialHeader Hp1 Hf1).
    reflexivity.
  - rewrite (nextItem_drains_eq fuel args _ rs2 s2 g2); try reflexivity; try assumption.
  - reflexivity.
  - rewrite process_rows_app_eq, Hp1. exact Hp2.
Qed.

End GroupByMore.

Section GroupByShape.
Local Open Scope nat_scope.
Import JS GroupBy GroupByOrder.
Import ExecutionContext(JsError, Response, name, code, fetchedResults, message,
                        result, headers, Build_JsError, Build_Response).
Context `{Imports}.
Context {Args S : Type} `{EC : !ExecutionContext.ExecutionContext Args Headers Row S}.

(** Feeding a group never changes its member names, throw or no throw. *)
Lemma feed_existing_keys payload keys :
  forall aggs : Grouping,
    map fst (fst (feed_existing aggs payload keys)) = map fst aggs.
Proof.
  induction keys as [|key keys IH]; intros aggs; [reflexivity|].
  rewrite feed_existing_cons.
  destruct (assoc_get String.eqb aggs key) as [a|] eqn:Ha; [|reflexivity].
  rewrite IH. apply (assoc_set_keys_present String.eqb string_eqb_spec).
  now apply (assoc_get_Some_elem String.eqb string_eqb_spec) in Ha.
Qed.








Lemma process_rows_order q (rows : list Row) :
  forall g g' : list (string * Grouping),
    process_rows q g rows = (g', None) ->
    map fst g' = map fst g ++ first_occurrences (map fst g) (map group_of rows).
Proof.
  induction rows as [|row rows IH]; intros g g' E; simpl in E.
  - injection E as <-. simpl. now rewrite app_nil_r.
  - destruct (process_row q g row) as [g1 [e|]] eqn:E1; [discriminate|].
    apply IH in E. rewrite E. simpl. unfold process_row in E1.
    destruct (assoc_get String.eqb g (group_of row)) as [old|] eqn:Hold.
    + destruct (feed_existing old (payload row) (Object_keys (payload row))) as [new e].
      injection E1 as <- _.
      apply (assoc_get_Some_elem String.eqb string_eqb_spec) in Hold.
      rewrite (assoc_set_keys_present String.eqb string_eqb_spec) by assumption.
      now rewrite bool_decide_eq_true_2.
    + destruct (seed_new q [] (payload row) (Object_keys (payload row))) as [new e].
      injection E1 as <- _.
      apply (assoc_get_None String.eqb string_eqb_spec) in Hold.
      rewrite (assoc_set_keys_absent String.eqb string_eqb_spec) by assumption.
      rewrite bool_decide_eq_false_2 by assumption.
      now rewrite <- app_assoc.
Qed.

(** X22.  The order of the results: over an inner context that delivers
    rows processed without a throw, the caller's loop on a new stage
    returns the results of the groups in the reverse of the order in
    which the group identities first occur among the rows. *)
Theorem pull_all_order args q s rs s' (g : list (string * Grouping)) :
  delivers args s rs s' ->
  process_rows q [] (rows_of rs) = (g, None) ->
  forall n fuel,
    length rs <= fuel -> length g < n ->
    exists out this',
      pull_all n fuel args (new_GroupByEndpointComponent s q) = Some (out, this', None) /\
      omap id out = rev (map (fun kv => group_result (snd kv)) g) /\
      map fst g = first_occurrences [] (map group_of (rows_of rs)).
Proof.
  intros Hdel Hproc n fuel Hf Hn.
  destruct (pull_all_new args q s rs s' g Hdel Hproc n fuel Hf Hn)
    as (out & this' & E & O & _).
  exists out, this'. split; [exact E|]. split; [exact O|].
  now apply process_rows_order in Hproc.
Qed.

(** X23.  A row of a group seen before with a payload member the group
    has no aggregator for: the pull that meets it throws the [TypeError]
    as it is, the stage is not completed, its buffer stays empty, the
    group identities are as before, and the inner context has been
    pulled that once. *)
Theorem nextItem_unknown_member fuel args (this : GroupByEndpointComponent S)
        s1 (r : Response Headers Row) (row : Row) (aggs : Grouping) (key : string) :
  aggregateResultArray this = [] ->
  completed this = false ->
  ExecutionContext.hasMoreResults (executionContext this) = true ->
  ExecutionContext.nextItem args (executionContext this) = (s1, inr r) ->
  result r = Some row ->
  assoc_get String.eqb (groupings this) (group_of row) = Some aggs ->
  key ∈ Object_keys (payload row) ->
  key ∉ map fst aggs ->
  exists this',
    nextItem (Datatypes.S fuel) args this = Some (this', inl TypeError_aggregate) /\
    executionContext this' = s1 /\
    completed this' = false /\
    aggregateResultArray this' = [] /\
    map fst (groupings this') = map fst (groupings this).
Proof.
  intros Hbuf Hc Hmore Hnext Hres Hg Hkey Hmiss.
  assert (Hfeed : forall keys (a : Grouping),
             key ∈ keys -> map fst a = map fst aggs ->
             snd (feed_existing a (payload row) keys) = Some TypeError_aggregate).
  { induction keys as [|k keys IH]; intros a Hin Ha.
    - now apply elem_of_nil in Hin.
    - rewrite feed_existing_cons.
      destruct (assoc_get String.eqb a k) as [x|] eqn:Hx; [|reflexivity].
      apply elem_of_cons in Hin as [->|Hin].
      + apply (assoc_get_Some_elem String.eqb string_eqb_spec) in Hx.
        rewrite Ha in Hx. contradiction.
      + apply IH; [assumption|].
        rewrite (assoc_set_keys_present String.eqb string_eqb_spec); [assumption|].
        now apply (assoc_get_Some_elem String.eqb string_eqb_spec) in Hx. }
  unfold nextItem. rewrite Hbuf, Hc. simpl. rewrite Hmore, Hnext, Hres.
  unfold process_row. rewrite Hg.
  pose proof (Hfeed (Object_keys (payload row)) aggs Hkey eq_refl) as Hs.
  pose proof (feed_existing_keys (payload row) (Object_keys (payload row)) aggs) as Hk.
  destruct (feed_existing aggs (payload row) (Object_keys (payload row))) as [new e].
  simpl in Hs, Hk. subst e.
  eexists. split; [reflexivity|]. simpl.
  repeat split.
  apply (assoc_set_keys_present String.eqb string_eqb_spec).
  now apply (assoc_get_Some_elem String.eqb string_eqb_spec) in Hg.
Qed.

(** X24.  The buffer is a stack: with the inner context exhausted, the
    caller's loop returns the buffered results from the last to the
    first, then stops with the buffer empty, whatever [completed] is. *)
Theorem pull_all_last_in_first_out fuel args inner q g c (buf : list GroupResult) n :
  ExecutionContext.hasMoreResults inner = false ->
  length buf <= n ->
  pull_all n fuel args
           {| executionContext := inner; queryInfo := q; groupings := g;
              aggregateResultArray := buf; completed := c |}
  = Some (map Some (rev buf),
          {| executionContext := inner; queryInfo := q; groupings := g;
             aggregateResultArray := []; completed := c |},
          None).
Proof. intros Hend Hn. now apply pull_all_buffer. Qed.

End GroupByShape.

(** ** The further properties on concrete inputs *)


Lemma addLog_accumulates_witness :
  exists h' n',
    DiagnosticsRest.run_calls
      (H0 := DiagnosticsRest.tracing_context)
      (DiagnosticsRest.root_heap Diagnostics.debug)
      (map (DiagnosticsRest.Call_addLog 0) ["first"; "second"]%string) = Some h'
    /\ Diagnostics.nodes h' !! 0%nat = Some n'
    /\ JS.obj_get (Diagnostics.data n') "log"
       = Some (JS.JArr [JS.JStr "first"; JS.JStr "second"]).
Proof.
  destruct (addLog_accumulates
              (H := DiagnosticsRest.tracing_imports)
              (H0 := DiagnosticsRest.tracing_context)
              ["first"; "second"]%string
              (DiagnosticsRest.root_heap Diagnostics.debug) 0
              (DiagnosticsRest.root_node Diagnostics.debug)
              eq_refl (or_introl eq_refl) ltac:(discriminate))
    as (h' & n' & E & Hn & Hl & _).
  exists h', n'. auto.
Defined.

Lemma recording_call_updates_its_node_witness :
  exists h',
    DiagnosticsRest.run_call (H0 := DiagnosticsRest.tracing_context)
      (DiagnosticsRest.root_heap Diagnostics.debug)
      (DiagnosticsRest.Call_updateTimestamp 0 5) = Some h'
    /\ DiagnosticsRest.updates_node
         (DiagnosticsRest.root_heap Diagnostics.debug) 0 h'.
Proof.
  eexists. split; [reflexivity|].
  apply (recording_call_updates_its_node
           (H := DiagnosticsRest.tracing_imports)
           (H0 := DiagnosticsRest.tracing_context)
           (DiagnosticsRest.root_heap Diagnostics.debug) _
           (DiagnosticsRest.Call_updateTimestamp 0 5)); reflexivity.
Defined.

Lemma calls_extend_the_store_witness :
  exists h',
    DiagnosticsRest.run_calls (H0 := DiagnosticsRest.tracing_context)
      (DiagnosticsRest.root_heap Diagnostics.debug)
      [DiagnosticsRest.Call_initializeChildNode
         0 Diagnostics.HTTP_REQUEST Diagnostics.info None "child" 1;
       DiagnosticsRest.Call_addChildNode 1 0 Diagnostics.info JS.JNull]
    = Some h'
    /\ DiagnosticsRest.extends (DiagnosticsRest.root_heap Diagnostics.debug) h'.
Proof.
  eexists. split; [reflexivity|].
  apply (calls_extend_the_store
           (H := DiagnosticsRest.tracing_imports)
           (H0 := DiagnosticsRest.tracing_context)
           [DiagnosticsRest.Call_initializeChildNode
              0 Diagnostics.HTTP_REQUEST Diagnostics.info None "child" 1;
            DiagnosticsRest.Call_addChildNode 1 0 Diagnostics.info JS.JNull]).
  reflexivity.
Defined.

Lemma calls_without_addChildNode_keep_order_witness :
  exists h',
    DiagnosticsRest.run_calls (H0 := DiagnosticsRest.tracing_context)
      (DiagnosticsRest.root_heap Diagnostics.debug)
      [DiagnosticsRest.Call_initializeChildNode
         0 Diagnostics.HTTP_REQUEST Diagnostics.info None "child" 1;
       DiagnosticsRest.Call_addLog 1 "sent"]
    = Some h'
    /\ DiagnosticsRest.ordered h'.
Proof.
  eexists. split; [reflexivity|].
  apply (calls_without_addChildNode_keep_order
           (H := DiagnosticsRest.tracing_imports)
           (H0 := DiagnosticsRest.tracing_context)
           [DiagnosticsRest.Call_initializeChildNode
              0 Diagnostics.HTTP_REQUEST Diagnostics.info None "child" 1;
            DiagnosticsRest.Call_addLog 1 "sent"]
           _ Diagnostics.debug Diagnostics.CLIENT_REQUEST_NODE None [] 0 None "root");
    reflexivity.
Defined.

(** The theorem of X11 on the root of a store of four nodes in three
    levels: the store is ordered, and the snapshot of the root holds
    those of its two children, the first with its own child. *)
Lemma toDiagnosticNode_returns_witness :
  DiagnosticsRest.run_calls (H0 := DiagnosticsRest.tracing_context)
    (DiagnosticsRest.root_heap Diagnostics.debug) DiagnosticsRest.tree_calls
  = Some DiagnosticsRest.tree_heap
  /\ DiagnosticsRest.ordered DiagnosticsRest.tree_heap
  /\ DiagnosticsRest.toDiagnosticNode (H := DiagnosticsRest.tracing_imports)
       4 DiagnosticsRest.tree_heap 0
     = Some (DiagnosticsRest.Build_DiagnosticNode
               "root" Diagnostics.CLIENT_REQUEST_NODE
               [DiagnosticsRest.Build_DiagnosticNode
                  "a" Diagnostics.HTTP_REQUEST
                  [DiagnosticsRest.Build_DiagnosticNode
                     "c" Diagnostics.REQUEST_ATTEMPTS [] [] 3 0]
                  [] 1 0;
                DiagnosticsRest.Build_DiagnosticNode
                  "b" Diagnostics.METADATA_REQUEST_NODE [] [] 2 0]
               [] 0 0).
Proof.
  assert (Hrun : DiagnosticsRest.run_calls (H0 := DiagnosticsRest.tracing_context)
                   (DiagnosticsRest.root_heap Diagnostics.debug)
                   DiagnosticsRest.tree_calls
                 = Some DiagnosticsRest.tree_heap) by reflexivity.
  assert (Hord : DiagnosticsRest.ordered (H := DiagnosticsRest.tracing_imports)
                   DiagnosticsRest.tree_heap).
  { apply (run_calls_ordered (H := DiagnosticsRest.tracing_imports)
             (H0 := DiagnosticsRest.tracing_context)
             DiagnosticsRest.tree_calls
             (DiagnosticsRest.root_heap Diagnostics.debug)
             DiagnosticsRest.tree_heap eq_refl Hrun).
    apply (root_ordered (H := DiagnosticsRest.tracing_imports)
             Diagnostics.debug Diagnostics.CLIENT_REQUEST_NODE None [] 0 None "root"). }
  split; [exact Hrun|]. split; [exact Hord|].
  destruct (toDiagnosticNode_returns
              (H := DiagnosticsRest.tracing_imports)
              DiagnosticsRest.tree_heap 0 Hord ltac:(vm_compute; lia))
    as (n & cs & Hn & E & Hl).
  vm_compute in Hn. injection Hn as <-.
  change (length (Diagnostics.nodes DiagnosticsRest.tree_heap)) with 4%nat in E.
  rewrite E. vm_compute in E. injection E as <-. reflexivity.
Defined.

Lemma toDiagnosticNode_of_own_child_witness :
  exists h',
    Diagnostics.addChildNode (DiagnosticsRest.root_heap Diagnostics.debug) 0 0
                             Diagnostics.info JS.JNull = Some (h', 0%nat)
    /\ DiagnosticsRest.toDiagnosticNode (H := DiagnosticsRest.tracing_imports)
         5 h' 0 = None.
Proof.
  eexists. split; [reflexivity|].
  apply (toDiagnosticNode_of_own_child
           (H := DiagnosticsRest.tracing_imports)
           (DiagnosticsRest.root_heap Diagnostics.debug) _ 0
           Diagnostics.info JS.JNull (DiagnosticsRest.root_node Diagnostics.debug));
    reflexivity.
Defined.

Lemma recordQueryResult_accumulates_witness :
  exists h' n',
    DiagnosticsRest.run_calls (H0 := DiagnosticsRest.tracing_context)
      (DiagnosticsRest.root_heap Diagnostics.debug)
      (map (fun b => DiagnosticsRest.Call_recordQueryResult 0 (JS.JArr b)
                       Diagnostics.info)
           [[JS.JNum 1; JS.JNum 2]; [JS.JNum 3]])
    = Some h'
    /\ Diagnostics.nodes h' !! 0%nat = Some n'
    /\ JS.obj_get (Diagnostics.data n') "queryRecordsRead" = Some (JS.JNum 3).
Proof.
  destruct (recordQueryResult_accumulates
              (H := DiagnosticsRest.tracing_imports)
              (H0 := DiagnosticsRest.tracing_context)
              [[JS.JNum 1; JS.JNum 2]; [JS.JNum 3]]
              (DiagnosticsRest.root_heap Diagnostics.debug) 0 Diagnostics.info
              (DiagnosticsRest.root_node Diagnostics.debug) 0
              eq_refl (or_introl (conj eq_refl eq_refl))) as [Hacc _].
  assert (Lo : - 2 ^ 53 <= 0) by (vm_compute; discriminate).
  assert (Hi : 0 + Z.of_nat (length (concat [[JS.JNum 1; JS.JNum 2]; [JS.JNum 3]]))
               <= 2 ^ 53) by (vm_compute; discriminate).
  destruct (Hacc eq_refl ltac:(discriminate) Lo Hi) as (h' & n' & E & Hn & Hq).
  exists h', n'. auto.
Defined.

Lemma recordSuccessfulNetworkCall_records_once_witness :
  exists h',
    DiagnosticsRest.recordSuccessfulNetworkCall
      (H0 := DiagnosticsRest.tracing_context)
      (DiagnosticsRest.root_heap Diagnostics.info) 0 10 Diagnostics.sample_request
      JS.JUndefined DiagnosticsRest.sample_response (JS.JNum 0)
      (JS.JStr "https://host/dbs") 25
    = Some h'
    /\ Diagnostics.contexts h' !! 0%nat
       = Some [DiagnosticsRest.NetworkCall
                 (DiagnosticsRest.gatewayRequest_of
                    (H := DiagnosticsRest.tracing_imports)
                    10 Diagnostics.sample_request JS.JUndefined
                    DiagnosticsRest.sample_response (JS.JNum 0) 25)].
Proof.
  destruct (recordSuccessfulNetworkCall_records_once
              (H := DiagnosticsRest.tracing_imports)
              (H0 := DiagnosticsRest.tracing_context)
              (DiagnosticsRest.root_heap Diagnostics.info) 0 10
              Diagnostics.sample_request JS.JUndefined
              DiagnosticsRest.sample_response (JS.JNum 0)
              (JS.JStr "https://host/dbs") 25
              (DiagnosticsRest.root_node Diagnostics.info) []
              eq_refl eq_refl) as (h' & n' & E & Hc & _).
  exists h'. split; [exact E|]. rewrite Hc. reflexivity.
Defined.

(** The theorem of X15 on a response whose body is the text of one
    character of two bytes followed by one of four bytes, three code
    units in all, and on a request whose body is the number 7. *)
Lemma payload_lengths_witness :
  DiagnosticsRest.calculateResponsePayloadLength
    (Some {| DiagnosticsRest.response_headers := [];
             DiagnosticsRest.status := JS.JNum 200;
             DiagnosticsRest.bodyAsText :=
               JS.JStr (String.string_of_list_ascii
                          (map ascii_of_nat [195; 169; 240; 159; 152; 128]%nat)) |})
  = JS.JNum 3
  /\ Diagnostics.calculateRequestPayloadLength
       {| Diagnostics.headers := JS.JUndefined; Diagnostics.body := JS.JNum 7;
          Diagnostics.operationType := JS.JUndefined;
          Diagnostics.resourceType := JS.JUndefined;
          Diagnostics.endpoint := JS.JUndefined; Diagnostics.path := JS.JUndefined |}
     = JS.JUndefined.
Proof.
  destruct (payload_lengths
              (Some {| DiagnosticsRest.response_headers := [];
                       DiagnosticsRest.status := JS.JNum 200;
                       DiagnosticsRest.bodyAsText :=
                         JS.JStr (String.string_of_list_ascii
                                    (map ascii_of_nat
                                         [195; 169; 240; 159; 152; 128]%nat)) |})
              {| Diagnostics.headers := JS.JUndefined; Diagnostics.body := JS.JNum 7;
                 Diagnostics.operationType := JS.JUndefined;
                 Diagnostics.resourceType := JS.JUndefined;
                 Diagnostics.endpoint := JS.JUndefined;
                 Diagnostics.path := JS.JUndefined |})
    as (_ & _ & _ & Htext & _ & _ & Hnum).
  split.
  - exact (Htext _ _ eq_refl eq_refl).
  - exact (Hnum eq_refl eq_refl).
Defined.

Lemma child_records_into_parent_context_witness :
  exists h1 r h2,
    Diagnostics.initializeChildNode (DiagnosticsRest.root_heap Diagnostics.debug) 0
      Diagnostics.HTTP_REQUEST Diagnostics.debugUnsafe None "child" 1
    = Some (h1, r)
    /\ Diagnostics.recordFailedNetworkCall h1 r 10 Diagnostics.sample_request 2
         (JS.JNum 429) (JS.JNum 3200) [] 25 = Some h2
    /\ Diagnostics.contexts h2 !! 0%nat
       = Some [DiagnosticsRest.FailedAttempt
                 (Diagnostics.failedAttempt_statistics
                    (H := DiagnosticsRest.tracing_imports)
                    10 Diagnostics.sample_request (JS.JNum 429) (JS.JNum 3200) [] 25)
                 2].
Proof.
  destruct (child_records_into_parent_context
              (H := DiagnosticsRest.tracing_imports)
              (DiagnosticsRest.root_heap Diagnostics.debug) 0
              Diagnostics.HTTP_REQUEST Diagnostics.debugUnsafe None "child" 1
              10 Diagnostics.sample_request 2 (JS.JNum 429) (JS.JNum 3200) [] 25
              (DiagnosticsRest.root_node Diagnostics.debug) []
              eq_refl eq_refl) as (h1 & r & h2 & E1 & E2 & Hc).
  exists h1, r, h2. auto.
Defined.

Lemma nextItem_drains_witness :
  exists this' r,
    GroupBy.nextItem (H := GroupBy.sample_imports) (EC := GroupBy.scripted) 4 tt
      (GroupBy.new_GroupByEndpointComponent
         (GroupBy.script_of_pages
            [[GroupBy.sample_row "A" 3; GroupBy.sample_row "A" 4;
              GroupBy.sample_row "B" 10]])
         GroupBy.sample_query)
    = Some (this', inr r)
    /\ ExecutionContext.headers r = 1
    /\ GroupBy.completed this' = true
    /\ length (GroupBy.aggregateResultArray this') = 1%nat.
Proof.
  eexists _, _. split.
  - exact (proj1 (nextItem_drains
                    (H := GroupBy.sample_imports) (EC := GroupBy.scripted) 4 tt
                    (GroupBy.new_GroupByEndpointComponent
                       (GroupBy.script_of_pages
                          [[GroupBy.sample_row "A" 3; GroupBy.sample_row "A" 4;
                            GroupBy.sample_row "B" 10]])
                       GroupBy.sample_query)
                    (GroupBy.responses_of_pages
                       [[GroupBy.sample_row "A" 3; GroupBy.sample_row "A" 4;
                         GroupBy.sample_row "B" 10]])
                    [] _ eq_refl eq_refl
                    (delivers_scripted _) eq_refl ltac:(simpl; lia))).
  - repeat split.
Defined.

Lemma nextItem_without_rows_witness :
  GroupBy.nextItem (H := GroupBy.sample_imports) (EC := GroupBy.scripted) 2 tt
    (GroupBy.new_GroupByEndpointComponent
       (GroupBy.script_of_pages [[]; []]) GroupBy.sample_query)
  = Some ({| GroupBy.executionContext := [];
             GroupBy.queryInfo := GroupBy.sample_query;
             GroupBy.groupings := [];
             GroupBy.aggregateResultArray := [];
             GroupBy.completed := true |},
          inr {| ExecutionContext.result := None;
                 ExecutionContext.headers := 2 |}).
Proof.
  exact (proj1 (nextItem_without_rows
                  (H := GroupBy.sample_imports) (EC := GroupBy.scripted) 2 tt
                  GroupBy.sample_query
                  (GroupBy.script_of_pages [[]; []])
                  (GroupBy.responses_of_pages [[]; []]) []
                  (delivers_scripted _) eq_refl ltac:(simpl; lia))).
Defined.

Lemma nextItem_completes_only_exhausted_witness :
  exists this' r,
    GroupBy.nextItem (H := GroupBy.sample_imports) (EC := GroupBy.scripted) 2 tt
      (GroupBy.new_GroupByEndpointComponent
         (GroupBy.script_of_pages [[GroupBy.sample_row "A" 3]]) GroupBy.sample_query)
    = Some (this', inr r)
    /\ GroupBy.completed this' = true
    /\ @ExecutionContext.hasMoreResults _ _ _ _ GroupBy.scripted
         (GroupBy.executionContext this') = false.
Proof.
  eexists _, _. split; [reflexivity|].
  exact (nextItem_completes_only_exhausted
           (H := GroupBy.sample_imports) (EC := GroupBy.scripted) 2 tt
           (GroupBy.new_GroupByEndpointComponent
              (GroupBy.script_of_pages [[GroupBy.sample_row "A" 3]])
              GroupBy.sample_query)
           _ (inr _) eq_refl eq_refl eq_refl).
Defined.

Lemma nextItem_resumes_after_throw_witness :
  exists this1 this2 r,
    GroupBy.nextItem (H := GroupBy.sample_imports) (EC := GroupBy.scripted) 3 tt
      (GroupBy.new_GroupByEndpointComponent
         (map inr (GroupBy.responses_of_pages [[GroupBy.sample_row "A" 3]])
          ++ inl GroupBy.sample_ru_error
             :: GroupBy.script_of_pages [[GroupBy.sample_row "A" 4]])
         GroupBy.sample_query)
    = Some (this1, inl (GroupBy.catch_clause (H := GroupBy.sample_imports)
                          GroupBy.sample_ru_error))
    /\ GroupBy.nextItem (H := GroupBy.sample_imports) (EC := GroupBy.scripted) 3 tt
         this1
       = Some (this2, inr r)
    /\ JS.obj_get (default [] (ExecutionContext.result r)) "sum"
       = Some (JS.JNum 7).
Proof.
  destruct (nextItem_resumes_after_throw
              (H := GroupBy.sample_imports) (EC := GroupBy.scripted) 3 tt
              (GroupBy.new_GroupByEndpointComponent
                 (map inr (GroupBy.responses_of_pages [[GroupBy.sample_row "A" 3]])
                  ++ inl GroupBy.sample_ru_error
                     :: GroupBy.script_of_pages [[GroupBy.sample_row "A" 4]])
                 GroupBy.sample_query)
              (GroupBy.responses_of_pages [[GroupBy.sample_row "A" 3]])
              GroupBy.sample_ru_error
              (GroupBy.script_of_pages [[GroupBy.sample_row "A" 4]])
              _
              (GroupBy.responses_of_pages [[GroupBy.sample_row "A" 4]])
              [] _
              eq_refl eq_refl
              (throws_scripted _ GroupBy.sample_ru_error _)
              eq_refl
              (delivers_scripted _)
              eq_refl ltac:(simpl; lia) ltac:(simpl; lia))
    as (this1 & this2 & E1 & E2 & _).
  exists this1, this2. eexists. split; [exact E1|]. split; [exact E2|]. reflexivity.
Defined.


Lemma pull_all_order_witness :
  exists out this',
    GroupBy.pull_all (H := GroupBy.sample_imports) (EC := GroupBy.scripted) 3 4 tt
      (GroupBy.new_GroupByEndpointComponent
         (GroupBy.script_of_pages
            [[GroupBy.sample_row "A" 3; GroupBy.sample_row "B" 10;
              GroupBy.sample_row "A" 4]])
         GroupBy.sample_query)
    = Some (out, this', None)
    /\ map (fun row => JS.obj_get row "sum") (omap id out)
       = [Some (JS.JNum 10); Some (JS.JNum 7)].
Proof.
  destruct (pull_all_order
              (H := GroupBy.sample_imports) (EC := GroupBy.scripted) tt
              GroupBy.sample_query _
              (GroupBy.responses_of_pages
                 [[GroupBy.sample_row "A" 3; GroupBy.sample_row "B" 10;
                   GroupBy.sample_row "A" 4]])
              [] _ (delivers_scripted _) eq_refl
              3%nat 4%nat ltac:(simpl; lia) ltac:(simpl; lia))
    as (out & this' & E & O & _).
  exists out, this'. split; [exact E|]. rewrite O. reflexivity.
Defined.

Lemma nextItem_unknown_member_witness :
  exists this',
    GroupBy.nextItem (H := GroupBy.sample_imports) (EC := GroupBy.scripted) 1 tt
      {| GroupBy.executionContext :=
           GroupBy.script_of_pages [[GroupBy.count_row "A" 1]];
         GroupBy.queryInfo := GroupBy.sample_query;
         GroupBy.groupings :=
           fst (GroupBy.process_row (H := GroupBy.sample_imports)
                  GroupBy.sample_query [] (GroupBy.sample_row "A" 3));
         GroupBy.aggregateResultArray := [];
         GroupBy.completed := false |}
    = Some (this', inl GroupBy.TypeError_aggregate).
Proof.
  destruct (nextItem_unknown_member
              (H := GroupBy.sample_imports) (EC := GroupBy.scripted) 0 tt
              {| GroupBy.executionContext :=
                   GroupBy.script_of_pages [[GroupBy.count_row "A" 1]];
                 GroupBy.queryInfo := GroupBy.sample_query;
                 GroupBy.groupings :=
                   fst (GroupBy.process_row (H := GroupBy.sample_imports)
                          GroupBy.sample_query [] (GroupBy.sample_row "A" 3));
                 GroupBy.aggregateResultArray := [];
                 GroupBy.completed := false |}
              _ _ (GroupBy.count_row "A" 1) _ "count"
              eq_refl eq_refl eq_refl eq_refl eq_refl eq_refl
              ltac:(apply list_elem_of_here)
              ltac:(intros Hin;
                    repeat (apply elem_of_cons in Hin as [Hin|Hin];
                            [discriminate|]);
                    now apply elem_of_nil in Hin))
    as (this' & E & _).
  exists this'. exact E.
Defined.

Lemma pull_all_last_in_first_out_witness :
  GroupBy.pull_all (H := GroupBy.sample_imports) (EC := GroupBy.scripted) 2 0 tt
    {| GroupBy.executionContext := [];
       GroupBy.queryInfo := GroupBy.sample_query;
       GroupBy.groupings := [];
       GroupBy.aggregateResultArray :=
         [[("sum"%string, JS.JNum 1)]; [("sum"%string, JS.JNum 2)]];
       GroupBy.completed := true |}
  = Some ([Some [("sum"%string, JS.JNum 2)]; Some [("sum"%string, JS.JNum 1)]],
          {| GroupBy.executionContext := [];
             GroupBy.queryInfo := GroupBy.sample_query;
             GroupBy.groupings := [];
             GroupBy.aggregateResultArray := [];
             GroupBy.completed := true |},
          None).
Proof.
  apply (pull_all_last_in_first_out
           (H := GroupBy.sample_imports) (EC := GroupBy.scripted) 0 tt
           [] GroupBy.sample_query [] true
           [[("sum"%string, JS.JNum 1)]; [("sum"%string, JS.JNum 2)]] 2).
  - reflexivity.
  - simpl. lia.
Defined.
